(** * GinMetric: the [ginprom] Prometheus middleware for gin

    A shallow embedding of package [ginprom] (the metric declarations, the
    uptime ticker [recordUpTime], the request-size estimator
    [calcRequestSize], the options [PromOpts] with [checkLabel], and the
    handler built by [PromMiddleware]) together with the properties the
    design document states about them.

    Conventions.
    - Go's [int] and [int64] are 64-bit two's complement integers: a value
      is a [Z] and every addition is followed by [wrap64].
    - Go's [float64] is [spec_float] at precision 53 and maximal exponent
      1024, with the rounding functions of the Standard Library.
    - A Go pointer that may be nil is an [option]; dereferencing nil panics.
    - Code that mutates the process state runs in the monad [M], a state
      monad over [World] whose outcome is a value or a panic; the state
      reached when a panic is raised is kept, since the updates made before
      the panic stay in the registry.
    - Packages the source imports ([regexp], [net/url]) enter as Section
      variables; [prometheus], [time] and [strconv] are modelled by the
      small part of their contract that the source uses. *)

From Stdlib Require Import ZArith Lia.
From Stdlib Require Import Floats.SpecFloat.
From stdpp Require Import gmap strings list fin_maps pretty.

Local Open Scope Z_scope.

(* ===================================================================== *)
(** ** Machine integers and floats *)
(* ===================================================================== *)

Module Int64.

Definition min_int : Z := - 2 ^ 63.
Definition max_int : Z := 2 ^ 63 - 1.

(** The value a 64-bit register holds after an arithmetic result [x]. *)
Definition wrap64 (x : Z) : Z := (x + 2 ^ 63) mod 2 ^ 64 - 2 ^ 63.

Definition in_range (x : Z) : Prop := min_int <= x <= max_int.

(** [a + b] on [int]. *)
Definition add (a b : Z) : Z := wrap64 (a + b).

(** [a - b] on [int64]. *)
Definition sub (a b : Z) : Z := wrap64 (a - b).

End Int64.

Module Float64.

Definition prec : Z := 53.
Definition emax : Z := 1024.

Definition float64 : Type := spec_float.

Definition zero : float64 := S754_zero false.

(** The conversion [float64(n)] of an integer: round to nearest, ties to
    even. *)
Definition of_int (n : Z) : float64 := binary_normalize prec emax n 0 false.

Definition add (x y : float64) : float64 := SFadd prec emax x y.
Definition div (x y : float64) : float64 := SFdiv prec emax x y.
Definition leb (x y : float64) : bool := SFleb x y.
Definition ltb (x y : float64) : bool := SFltb x y.

(** [x >= 0] as Go evaluates it: false on NaN, true on both zeros. *)
Definition nonneg (x : float64) : Prop := leb zero x = true.

End Float64.

Abbreviation float64 := Float64.float64.

(** [len(s)] of a Go string: its number of bytes, as an [int]. *)
Definition len (s : string) : Z := Z.of_nat (String.length s).

(* ===================================================================== *)
(** ** Outcomes: a value or a panic *)
(* ===================================================================== *)

Inductive Outcome (A : Type) : Type :=
| Ok (a : A)
| Panic (msg : string).
Arguments Ok {A} a.
Arguments Panic {A} msg.

Definition nil_dereference : string :=
  "invalid memory address or nil pointer dereference".

(** [*p] for a pointer [p]. *)
Definition deref {A : Type} (p : option A) : Outcome A :=
  match p with
  | Some a => Ok a
  | None => Panic nil_dereference
  end.

Definition obind {A B : Type} (o : Outcome A) (k : A -> Outcome B) : Outcome B :=
  match o with
  | Ok a => k a
  | Panic msg => Panic msg
  end.

Definition is_Ok {A : Type} (o : Outcome A) : Prop := exists a, o = Ok a.

(* ===================================================================== *)
(** ** The data the middleware reads: [url.URL], [http.Request],
       [gin.Context] *)
(* ===================================================================== *)

(** [url.URL], with the fields a request line fills. *)
Record url_URL : Type := {
  Scheme   : string;
  Path     : string;
  RawQuery : string
}.

(** [http.Request], with the fields [calcRequestSize] and the handler
    read.  [Header] is a [map[string][]string]. *)
Record http_Request : Type := {
  URL           : option url_URL;        (* *url.URL *)
  Method        : string;
  Proto         : string;
  Header        : gmap string (list string);
  Host          : string;
  ContentLength : Z                      (* int64 *)
}.

(** [gin.ResponseWriter]: what [Status()] and [Size()] report. *)
Record gin_ResponseWriter : Type := {
  Status : Z;                            (* int *)
  Size   : Z                             (* int; -1 when nothing was written *)
}.

(** [gin.Context]. *)
Record gin_Context : Type := {
  Request : option http_Request;         (* *http.Request *)
  Writer  : gin_ResponseWriter
}.

(* ===================================================================== *)
(** ** [calcRequestSize] *)
(* ===================================================================== *)

Section SizeEstimator.

(** The method [String] of [url.URL], from package [net/url]. *)
Variable URL_String : url_URL -> string.

(** The inner loop [for _, value := range values { size += len(value) }]. *)
Definition add_values (size : Z) (values : list string) : Z :=
  foldl (fun size value => Int64.add size (len value)) size values.

(** One iteration of [for name, values := range r.Header]. *)
Definition add_header (size : Z) (entry : string * list string) : Z :=
  add_values (Int64.add size (len entry.1)) entry.2.

(** The loop over [r.Header], visiting the entries in the order
    [entries]. *)
Definition range_Header (size : Z) (entries : list (string * list string)) : Z :=
  foldl add_header size entries.

(** [calcRequestSize], on [r] whose header entries are visited in the
    order [map_to_list] gives (Go leaves the order unspecified;
    [range_Header_Permutation] shows it does not matter).

    In the branch [r.URL == nil] the method [String] is called on the nil
    pointer and dereferences it. *)
Definition calcRequestSize (r : option http_Request) : Outcome float64 :=
  obind (deref r) (fun r =>
  let size := 0 in
  obind (match URL r with
         | None => obind (deref (URL r)) (fun u => Ok (len (URL_String u)))
         | Some _ => Ok size
         end) (fun size =>
  let size := Int64.add size (len (Method r)) in
  let size := Int64.add size (len (Proto r)) in
  let size := range_Header size (map_to_list (Header r)) in
  let size := Int64.add size (len (Host r)) in
  let size :=
    if bool_decide (ContentLength r <> -1)
    then Int64.add size (Int64.wrap64 (ContentLength r))
    else size in
  Ok (Float64.of_int size))).

End SizeEstimator.

(* ===================================================================== *)
(** ** The metric registry (package [prometheus]) *)
(* ===================================================================== *)

(** The label values selecting one child series of a metric vector. *)
Abbreviation LabelValues := (list string) (only parsing).

(** The state of the five collectors the package declares and registers.
    A counter child is the number of [Inc] calls it received; a histogram
    or summary child is the sequence of the values it observed, oldest
    first. *)
Record Registry : Type := {
  uptime        : gmap LabelValues N;
  reqCount      : gmap LabelValues N;
  reqDuration   : gmap LabelValues (list float64);
  reqSizeBytes  : gmap LabelValues (list float64);
  respSizeBytes : gmap LabelValues (list float64)
}.

Definition set_uptime (m : gmap LabelValues N) (r : Registry) : Registry :=
  {| uptime := m; reqCount := reqCount r; reqDuration := reqDuration r;
     reqSizeBytes := reqSizeBytes r; respSizeBytes := respSizeBytes r |}.
Definition set_reqCount (m : gmap LabelValues N) (r : Registry) : Registry :=
  {| uptime := uptime r; reqCount := m; reqDuration := reqDuration r;
     reqSizeBytes := reqSizeBytes r; respSizeBytes := respSizeBytes r |}.
Definition set_reqDuration (m : gmap LabelValues (list float64)) (r : Registry) : Registry :=
  {| uptime := uptime r; reqCount := reqCount r; reqDuration := m;
     reqSizeBytes := reqSizeBytes r; respSizeBytes := respSizeBytes r |}.
Definition set_reqSizeBytes (m : gmap LabelValues (list float64)) (r : Registry) : Registry :=
  {| uptime := uptime r; reqCount := reqCount r; reqDuration := reqDuration r;
     reqSizeBytes := m; respSizeBytes := respSizeBytes r |}.
Definition set_respSizeBytes (m : gmap LabelValues (list float64)) (r : Registry) : Registry :=
  {| uptime := uptime r; reqCount := reqCount r; reqDuration := reqDuration r;
     reqSizeBytes := reqSizeBytes r; respSizeBytes := m |}.

(** The registry after [prometheus.MustRegister]: no child exists yet. *)
Definition empty_registry : Registry :=
  {| uptime := ∅; reqCount := ∅; reqDuration := ∅;
     reqSizeBytes := ∅; respSizeBytes := ∅ |}.

(** A metric vector: its variable label names, fixed when it is declared,
    and the place of its children in the registry.  [newMetric] is the
    state of a child that [WithLabelValues] creates. *)
Record MetricVec (S : Type) : Type := {
  variableLabels : list string;
  children       : Registry -> gmap LabelValues S;
  set_children   : gmap LabelValues S -> Registry -> Registry;
  newMetric      : S
}.
Arguments variableLabels {S} _.
Arguments children {S} _ _.
Arguments set_children {S} _ _ _.
Arguments newMetric {S} _.

Definition labels : list string := ["status"; "endpoint"; "method"]%string.

Definition uptime_vec : MetricVec N :=
  {| variableLabels := []; children := uptime;
     set_children := set_uptime; newMetric := 0%N |}.
Definition reqCount_vec : MetricVec N :=
  {| variableLabels := labels; children := reqCount;
     set_children := set_reqCount; newMetric := 0%N |}.
Definition reqDuration_vec : MetricVec (list float64) :=
  {| variableLabels := labels; children := reqDuration;
     set_children := set_reqDuration; newMetric := [] |}.
Definition reqSizeBytes_vec : MetricVec (list float64) :=
  {| variableLabels := labels; children := reqSizeBytes;
     set_children := set_reqSizeBytes; newMetric := [] |}.
Definition respSizeBytes_vec : MetricVec (list float64) :=
  {| variableLabels := labels; children := respSizeBytes;
     set_children := set_respSizeBytes; newMetric := [] |}.

(* ===================================================================== *)
(** ** Options, the process state and the monad *)
(* ===================================================================== *)

(** [RequestLabelMappingFn]: a function of the context that returns a
    label or panics. *)
Definition RequestLabelMappingFn : Type := gin_Context -> Outcome string.

Record PromOpts : Type := {
  ExcludeRegexStatus     : string;
  ExcludeRegexEndpoint   : string;
  ExcludeRegexMethod     : string;
  EndpointLabelMappingFn : option RequestLabelMappingFn   (* nil when unset *)
}.

Definition set_EndpointLabelMappingFn (f : option RequestLabelMappingFn)
    (po : PromOpts) : PromOpts :=
  {| ExcludeRegexStatus := ExcludeRegexStatus po;
     ExcludeRegexEndpoint := ExcludeRegexEndpoint po;
     ExcludeRegexMethod := ExcludeRegexMethod po;
     EndpointLabelMappingFn := f |}.

(** The address of a [PromOpts] value. *)
Abbreviation loc := positive (only parsing).

(** The process state: the registry, the [PromOpts] values that exist
    (the middleware keeps a pointer to one, which its creator may still
    hold), and the monotonic clock, given by the readings it will return
    ([timeline]) and the number of readings taken so far. *)
Record World : Type := {
  registry : Registry;
  opts     : gmap loc PromOpts;
  timeline : nat -> Z;
  reads    : nat
}.

Definition set_registry (r : Registry) (w : World) : World :=
  {| registry := r; opts := opts w; timeline := timeline w; reads := reads w |}.
Definition set_opts (h : gmap loc PromOpts) (w : World) : World :=
  {| registry := registry w; opts := h; timeline := timeline w; reads := reads w |}.
Definition set_reads (n : nat) (w : World) : World :=
  {| registry := registry w; opts := opts w; timeline := timeline w; reads := n |}.

Definition M (A : Type) : Type := World -> Outcome A * World.

Definition M_ret {A : Type} (a : A) : M A := fun w => (Ok a, w).

Definition M_bind {A B : Type} (m : M A) (k : A -> M B) : M B :=
  fun w =>
    match m w with
    | (Ok a, w') => k a w'
    | (Panic msg, w') => (Panic msg, w')
    end.

Definition lift {A : Type} (o : Outcome A) : M A := fun w => (o, w).

Declare Scope go_scope.
Delimit Scope go_scope with go.
Notation "'let!' x ':=' m 'in' k" := (M_bind m (fun x => k))
  (at level 10, x name, m at level 100, k at level 200) : go_scope.
Local Open Scope go_scope.

(** *** [prometheus]: [WithLabelValues], [Inc], [Observe] *)

Definition inconsistent_cardinality : string := "inconsistent label cardinality".

(** [utf8.ValidString] of package [unicode/utf8], on the bytes of the
    string: a first byte below 128 stands alone; a first byte from 194 to
    244 is followed by one, two or three continuation bytes, the first of
    them in the range that excludes overlong encodings, surrogates and
    code points above U+10FFFF; any other byte makes the string invalid. *)
Definition byte_in (lo hi : N) (a : Ascii.ascii) : bool :=
  ((lo <=? Ascii.N_of_ascii a) && (Ascii.N_of_ascii a <=? hi))%N.

Fixpoint utf8_ValidString (s : string) : bool :=
  match s with
  | EmptyString => true
  | String a s1 =>
      let b := Ascii.N_of_ascii a in
      if (b <? 128)%N then utf8_ValidString s1
      else if ((194 <=? b) && (b <=? 223))%N then
        match s1 with
        | String a1 s2 => byte_in 128 191 a1 && utf8_ValidString s2
        | _ => false
        end
      else if ((224 <=? b) && (b <=? 239))%N then
        match s1 with
        | String a1 (String a2 s3) =>
            byte_in (if (b =? 224)%N then 160 else 128)
                    (if (b =? 237)%N then 159 else 191) a1 &&
            byte_in 128 191 a2 && utf8_ValidString s3
        | _ => false
        end
      else if ((240 <=? b) && (b <=? 244))%N then
        match s1 with
        | String a1 (String a2 (String a3 s4)) =>
            byte_in (if (b =? 240)%N then 144 else 128)
                    (if (b =? 244)%N then 143 else 191) a1 &&
            byte_in 128 191 a2 && byte_in 128 191 a3 && utf8_ValidString s4
        | _ => false
        end
      else false
  end.

Definition invalid_label_value : string := "label value is not valid UTF-8".

(** [v.WithLabelValues(lvs...)]: panics when the number of values differs
    from the number of variable labels, and when one of the values is not
    valid UTF-8; otherwise returns the child for [lvs], creating it when
    it does not exist.  The child is named by its label values. *)
Definition WithLabelValues {S : Type} (v : MetricVec S) (lvs : LabelValues)
    : M LabelValues :=
  fun w =>
    if bool_decide (length lvs = length (variableLabels v)) then
      if forallb utf8_ValidString lvs then
        match children v (registry w) !! lvs with
        | Some _ => (Ok lvs, w)
        | None =>
            (Ok lvs,
             set_registry
               (set_children v (<[lvs := newMetric v]> (children v (registry w)))
                  (registry w)) w)
        end
      else (Panic invalid_label_value, w)
    else (Panic inconsistent_cardinality, w).

(** [child.Inc()] on a child of the counter vector [v]. *)
Definition Inc (v : MetricVec N) (child : LabelValues) : M unit :=
  fun w =>
    (Ok tt,
     set_registry
       (set_children v (alter N.succ child (children v (registry w))) (registry w)) w).

(** [child.Observe(x)] on a child of the histogram or summary vector [v]. *)
Definition Observe (v : MetricVec (list float64)) (child : LabelValues)
    (x : float64) : M unit :=
  fun w =>
    (Ok tt,
     set_registry
       (set_children v (alter (fun xs => xs ++ [x]) child (children v (registry w)))
          (registry w)) w).

(** *** [time]: [Now], [Since], [Duration.Seconds] *)

(** [time.Now()]: the next reading of the monotonic clock, in
    nanoseconds. *)
Definition time_Now : M Z :=
  fun w => (Ok (timeline w (reads w)), set_reads (S (reads w)) w).

(** [t.Sub(u)] on monotonic readings: the difference, saturated at the
    smallest and largest [Duration]. *)
Definition time_Sub (t u : Z) : Z :=
  let d := Int64.sub t u in
  if (d <? 0) && (t >? u) then Int64.max_int
  else if (d >? 0) && (t <? u) then Int64.min_int
  else d.

(** [time.Since(start)] is [time.Now().Sub(start)]. *)
Definition time_Since (start : Z) : M Z :=
  let! now := time_Now in M_ret (time_Sub now start).

Definition Second : Z := 1000000000.

(** [d.Seconds()]: [float64(d / Second) + float64(d % Second) / 1e9], with
    Go's truncated division. *)
Definition Seconds (d : Z) : float64 :=
  let sec := Z.quot d Second in
  let nsec := Z.rem d Second in
  Float64.add (Float64.of_int sec)
    (Float64.div (Float64.of_int nsec) (Float64.of_int 1000000000)).

(** [strconv.Itoa]: the decimal digits, after a minus sign when negative. *)
Definition Itoa (i : Z) : string := pretty i.

(* ===================================================================== *)
(** ** [recordUpTime] *)
(* ===================================================================== *)

(** [recordUpTime] over the ticks it has received so far from the channel
    of [time.Tick(time.Second)]: one turn of the loop body
    [uptime.WithLabelValues().Inc()] for each.  When the list ends the loop
    is waiting for the next tick. *)
Fixpoint recordUpTime (ticks : list Z) : M unit :=
  match ticks with
  | [] => M_ret tt
  | _ :: ticks =>
      let! child := WithLabelValues uptime_vec [] in
      let! _ := Inc uptime_vec child in
      recordUpTime ticks
  end.

(* ===================================================================== *)
(** ** [PromOpts.checkLabel], [NewDefaultOpts], [PromMiddleware] *)
(* ===================================================================== *)

(** The anonymous function both [NewDefaultOpts] and [PromMiddleware]
    install: [func(c *gin.Context) string { return c.Request.URL.Path }]. *)
Definition raw_path : RequestLabelMappingFn :=
  fun c =>
    obind (deref (Request c)) (fun r =>
    obind (deref (URL r)) (fun u =>
    Ok (Path u))).

(** What [NewDefaultOpts] stores behind the pointer it returns. *)
Definition default_opts : PromOpts :=
  {| ExcludeRegexStatus := "";
     ExcludeRegexEndpoint := "";
     ExcludeRegexMethod := "";
     EndpointLabelMappingFn := Some raw_path |}.

(** [&PromOpts{...}]: a new value at an address not in use. *)
Definition new_opts (po : PromOpts) : M loc :=
  fun w =>
    let l := fresh (dom (opts w)) in
    (Ok l, set_opts (<[l := po]> (opts w)) w).

(** [*l] for a pointer to [PromOpts]. *)
Definition load (l : loc) : M PromOpts :=
  fun w => (deref (opts w !! l), w).

(** [*l = po]. *)
Definition store (l : loc) (po : PromOpts) : M unit :=
  fun w => (Ok tt, set_opts (<[l := po]> (opts w)) w).

Definition NewDefaultOpts : M loc := new_opts default_opts.

(** [gin.HandlerFunc], with [c.Next()] (the rest of the chain, which
    sets the writer's status and size and may change anything else) as its
    first argument.  The context is passed by pointer: the handler returns
    it as it stands when the handler ends. *)
Definition gin_HandlerFunc : Type :=
  (gin_Context -> M gin_Context) -> gin_Context -> M gin_Context.

Section Middleware.

(** [regexp.MatchString(pattern, s)]: [(matched, err)], where [err] is
    not nil exactly when [pattern] does not compile. *)
Variable regexp_MatchString : string -> string -> bool * option string.

Variable URL_String : url_URL -> string.

Definition checkLabel (po : PromOpts) (label pattern : string) : bool :=
  if bool_decide (pattern = ""%string) then true
  else
    let '(matched, err) := regexp_MatchString pattern label in
    if bool_decide (err <> None) then true
    else negb matched.

(** The closure [PromMiddleware] returns; [promOpts] is the pointer it
    captured. *)
Definition handler (promOpts : loc) : gin_HandlerFunc :=
  fun Next c =>
    let! start := time_Now in
    let! c := Next c in

    let status := Itoa (Status (Writer c)) in
    let! po := load promOpts in
    let! fn := lift (deref (EndpointLabelMappingFn po)) in
    let! endpoint := lift (fn c) in
    let! r := lift (deref (Request c)) in
    let method := Method r in

    let lvs := [status; endpoint; method] in

    let! po := load promOpts in
    let ok := checkLabel po status (ExcludeRegexStatus po) &&
              checkLabel po endpoint (ExcludeRegexEndpoint po) &&
              checkLabel po method (ExcludeRegexMethod po) in

    if negb ok then M_ret c
    else
      let respSize := Size (Writer c) in
      let respSize := if respSize <? 0 then 0 else respSize in
      let! child := WithLabelValues reqCount_vec lvs in
      let! _ := Inc reqCount_vec child in
      let! child := WithLabelValues reqDuration_vec lvs in
      let! d := time_Since start in
      let! _ := Observe reqDuration_vec child (Seconds d) in
      let! child := WithLabelValues reqSizeBytes_vec lvs in
      let! size := lift (calcRequestSize URL_String (Request c)) in
      let! _ := Observe reqSizeBytes_vec child size in
      let! child := WithLabelValues respSizeBytes_vec lvs in
      let! _ := Observe respSizeBytes_vec child (Float64.of_int respSize) in
      M_ret c.

Definition PromMiddleware (promOpts : option loc) : M gin_HandlerFunc :=
  let! promOpts :=
    match promOpts with
    | None => NewDefaultOpts
    | Some l => M_ret l
    end in
  let! po := load promOpts in
  let! _ :=
    match EndpointLabelMappingFn po with
    | None => store promOpts (set_EndpointLabelMappingFn (Some raw_path) po)
    | Some _ => M_ret tt
    end in
  M_ret (handler promOpts).

End Middleware.

(* ===================================================================== *)
(** ** [PromHandler] *)
(* ===================================================================== *)

(** [http.Handler]: [ServeHTTP(w, r)] is given the response writer and the
    request, may change any part of the process state, and leaves the
    writer in the state it returns (the writer is passed by reference). *)
Definition http_Handler : Type :=
  gin_ResponseWriter -> option http_Request -> M gin_ResponseWriter.

(** [PromHandler]: the closure calls [handler.ServeHTTP(c.Writer,
    c.Request)] and returns.  It neither calls [c.Next()] nor aborts, so
    the loop that called it goes on with the handlers registered after
    it: [Next], the rest of the chain, runs once it has returned. *)
Definition PromHandler (handler : http_Handler) : gin_HandlerFunc :=
  fun Next c =>
    let! wr := handler (Writer c) (Request c) in
    Next {| Request := Request c; Writer := wr |}.

(* ===================================================================== *)
(** ** The process: ticks and requests, one after the other *)
(* ===================================================================== *)

Section Process.

Variable regexp_MatchString : string -> string -> bool * option string.
Variable URL_String : url_URL -> string.

(** What the process does next: the ticker goroutine receives a tick and
    runs its loop body, or a request is served by the handler that
    captured [promOpts], with [Next] for the rest of its chain. *)
Inductive Event : Type :=
| Tick (t : Z)
| Serve (promOpts : positive) (Next : gin_Context -> M gin_Context)
    (c : gin_Context).

(** The state after one event.  A panic of a handler is recovered by the
    server, and the state it reached stays. *)
Definition step (e : Event) (w : World) : World :=
  match e with
  | Tick t => (recordUpTime [t] w).2
  | Serve promOpts Next c =>
      (handler regexp_MatchString URL_String promOpts Next c w).2
  end.

Definition run (es : list Event) (w : World) : World :=
  foldl (fun w e => step e w) w es.

End Process.

(** The number of ticks among the events [es]. *)
Fixpoint ticks_in (es : list Event) : nat :=
  match es with
  | [] => 0
  | Tick _ :: es => S (ticks_in es)
  | Serve _ _ _ :: es => ticks_in es
  end.

(* ===================================================================== *)
(** ** Vocabulary of the properties *)
(* ===================================================================== *)

(** The bytes of a list of header values, and of a list of header
    entries, as unbounded integers. *)
Definition values_bytes (values : list string) : Z :=
  foldr (fun value acc => len value + acc) 0 values.

Definition header_bytes (entries : list (string * list string)) : Z :=
  foldr (fun entry acc => len entry.1 + values_bytes entry.2 + acc) 0 entries.

(** The bytes [calcRequestSize] sums when the URL is present, as an
    unbounded integer: method, protocol, header names and values, host,
    and the content length unless it is the sentinel [-1]. *)
Definition request_bytes (r : http_Request) : Z :=
  len (Method r) + len (Proto r) + header_bytes (map_to_list (Header r))
  + len (Host r)
  + (if bool_decide (ContentLength r <> -1) then ContentLength r else 0).

Definition set_URL (u : option url_URL) (r : http_Request) : http_Request :=
  {| URL := u; Method := Method r; Proto := Proto r; Header := Header r;
     Host := Host r; ContentLength := ContentLength r |}.

Definition set_ContentLength (n : Z) (r : http_Request) : http_Request :=
  {| URL := URL r; Method := Method r; Proto := Proto r; Header := Header r;
     Host := Host r; ContentLength := n |}.

(** Every byte of [s] is below 128. *)
Fixpoint ascii_only (s : string) : bool :=
  match s with
  | EmptyString => true
  | String a s' => (Ascii.N_of_ascii a <? 128)%N && ascii_only s'
  end.

(** The counter value and the observed values of the child for [lvs];
    a child that does not exist has counted and observed nothing. *)
Definition count (v : MetricVec N) (reg : Registry) (lvs : LabelValues) : N :=
  default 0%N (children v reg !! lvs).

Definition samples (v : MetricVec (list float64)) (reg : Registry)
    (lvs : LabelValues) : list float64 :=
  default [] (children v reg !! lvs).

(** Between [before] and [after] the child for [lvs] of the counter vector
    [v] was incremented exactly once, and no other child of [v] changed. *)
Definition incremented_once (v : MetricVec N) (before after : Registry)
    (lvs : LabelValues) : Prop :=
  children v after !! lvs = Some (count v before lvs + 1)%N /\
  forall k, k <> lvs -> children v after !! k = children v before !! k.

(** Between [before] and [after] the child for [lvs] of [v] observed
    exactly one value, [x], and no other child of [v] changed. *)
Definition observed_once (v : MetricVec (list float64)) (before after : Registry)
    (lvs : LabelValues) (x : float64) : Prop :=
  children v after !! lvs = Some (samples v before lvs ++ [x]) /\
  forall k, k <> lvs -> children v after !! k = children v before !! k.

(** The registry after one request with labels [lvs] was recorded with
    duration [d], request size [req] and response size [resp]. *)
Definition recorded (lvs : LabelValues) (d req resp : float64)
    (reg : Registry) : Registry :=
  {| uptime := uptime reg;
     reqCount := <[lvs := N.succ (count reqCount_vec reg lvs)]> (reqCount reg);
     reqDuration :=
       <[lvs := samples reqDuration_vec reg lvs ++ [d]]> (reqDuration reg);
     reqSizeBytes :=
       <[lvs := samples reqSizeBytes_vec reg lvs ++ [req]]> (reqSizeBytes reg);
     respSizeBytes :=
       <[lvs := samples respSizeBytes_vec reg lvs ++ [resp]]> (respSizeBytes reg) |}.

Definition child_or_new {S : Type} (new : S) (m : gmap (list string) S)
    (lvs : LabelValues) : gmap (list string) S :=
  match m !! lvs with
  | Some _ => m
  | None => <[lvs := new]> m
  end.

(** [m] does not change the uptime counter, whether it returns or
    panics. *)
Definition keeps_uptime {A : Type} (m : M A) : Prop :=
  forall w, uptime (registry (m w).2) = uptime (registry w).

(** The rest of the chain of a served request does not change the uptime
    counter (the counter is private to the package). *)
Definition downstream_keeps_uptime (e : Event) : Prop :=
  match e with
  | Tick _ => True
  | Serve _ Next _ => forall c, keeps_uptime (Next c)
  end.

(** The request [c], served from the state [w] by the handler that
    captured [promOpts], completes: the rest of the chain returns,
    leaving the context [c1] and the state [w1]; the options are [po];
    their mapping function returns [endpoint]; the request is [r]. *)
Record completes (promOpts : positive) (Next : gin_Context -> M gin_Context)
    (c : gin_Context) (w : World) (c1 : gin_Context) (w1 : World)
    (po : PromOpts) (endpoint : string) (r : http_Request) : Prop := {
  Next_returns : Next c (set_reads (S (reads w)) w) = (Ok c1, w1);
  opts_loaded  : opts w1 !! promOpts = Some po;
  endpoint_mapped :
    exists fn, EndpointLabelMappingFn po = Some fn /\ fn c1 = Ok endpoint;
  request_present : Request c1 = Some r
}.

(** No suppression is configured: the three patterns are empty. *)
Definition no_suppression (po : PromOpts) : Prop :=
  ExcludeRegexStatus po = ""%string /\
  ExcludeRegexEndpoint po = ""%string /\
  ExcludeRegexMethod po = ""%string.


(** The duration the handler observes: from its first reading of the
    clock in [w] to its next reading in [w1]. *)
Definition elapsed (w w1 : World) : float64 :=
  Seconds (time_Sub (timeline w1 (reads w1)) (timeline w (reads w))).

(** The response size the handler observes. *)
Definition response_size (c1 : gin_Context) : float64 :=
  Float64.of_int (if Size (Writer c1) <? 0 then 0 else Size (Writer c1)).

Section Suppression.

Variable regexp_MatchString : string -> string -> bool * option string.

(** The value of [ok] in the handler. *)
Definition passes (po : PromOpts) (status endpoint method : string) : bool :=
  checkLabel regexp_MatchString po status (ExcludeRegexStatus po) &&
  checkLabel regexp_MatchString po endpoint (ExcludeRegexEndpoint po) &&
  checkLabel regexp_MatchString po method (ExcludeRegexMethod po).

(** [pattern] is configured, compiles, and matches [label]. *)
Definition suppresses (pattern label : string) : Prop :=
  pattern <> ""%string /\ regexp_MatchString pattern label = (true, None).

(** [pattern] does not compile: [regexp.MatchString] returns an error. *)
Definition fails_to_compile (pattern label : string) : Prop :=
  (regexp_MatchString pattern label).2 <> None.

End Suppression.

(* ===================================================================== *)
(** ** Sample instances of the imported functions and sample inputs *)
(* ===================================================================== *)

Module Sample.

(** [contains p s]: [p] occurs in [s]. *)
Fixpoint contains (p s : string) : bool :=
  String.prefix p s ||
  match s with
  | EmptyString => false
  | String _ s' => contains p s'
  end.

(** An instance of [regexp.MatchString] that agrees with it on the
    pattern ["("], which does not compile, and on patterns of letters,
    digits and slashes, which match the strings they occur in. *)
Definition MatchString (pattern s : string) : bool * option string :=
  if bool_decide (pattern = "("%string)
  then (false, Some "error parsing regexp: missing closing )"%string)
  else (contains pattern s, None).

(** An instance of [String] for the URLs of request lines: the path,
    then the query after a question mark. *)
Definition URL_String (u : url_URL) : string :=
  if bool_decide (RawQuery u = ""%string) then Path u
  else (Path u +:+ "?" +:+ RawQuery u)%string.

Definition index_url : url_URL :=
  {| Scheme := ""; Path := "/index"; RawQuery := "" |}.

(** [GET /index HTTP/1.1] with one header and no body. *)
Definition get_index : http_Request :=
  {| URL := Some index_url; Method := "GET"; Proto := "HTTP/1.1";
     Header := {[ "Accept"%string := ["*/*"%string] ]};
     Host := "localhost:8080"; ContentLength := 0 |}.

(** A request built by hand with no URL. *)
Definition no_url : http_Request :=
  {| URL := None; Method := "GET"; Proto := "HTTP/1.1";
     Header := ∅; Host := ""; ContentLength := 0 |}.

(** A request built by hand whose content length is below the
    sentinel. *)
Definition below_sentinel : http_Request :=
  {| URL := Some index_url; Method := ""; Proto := "";
     Header := ∅; Host := ""; ContentLength := -2 |}.

Definition ctx (r : http_Request) (status size : Z) : gin_Context :=
  {| Request := Some r; Writer := {| Status := status; Size := size |} |}.

(** [GET /index] before the chain ran, and after it answered 200 with 17
    bytes, 204 with no body, or 403 with 23 bytes. *)
Definition c0 : gin_Context := ctx get_index 0 (-1).
Definition c200 : gin_Context := ctx get_index 200 17.
Definition c204 : gin_Context := ctx get_index 204 (-1).
Definition c403 : gin_Context := ctx get_index 403 23.

(** A downstream chain that answers with [status] and writes [size]
    bytes. *)
Definition respond (status size : Z) : gin_Context -> M gin_Context :=
  fun c => M_ret {| Request := Request c;
                    Writer := {| Status := status; Size := size |} |}.

(** A process that has just started: empty registry, no options, and a
    clock that advances 250ms between readings. *)
Definition boot : World :=
  {| registry := empty_registry; opts := ∅;
     timeline := fun n => 250000000 * Z.of_nat n; reads := 0 |}.

(** Options that exclude the statuses containing [40]. *)
Definition no_40x : PromOpts :=
  {| ExcludeRegexStatus := "40"; ExcludeRegexEndpoint := "";
     ExcludeRegexMethod := ""; EndpointLabelMappingFn := None |}.

(** Options whose status pattern does not compile. *)
Definition broken : PromOpts :=
  {| ExcludeRegexStatus := "("; ExcludeRegexEndpoint := "";
     ExcludeRegexMethod := ""; EndpointLabelMappingFn := None |}.

(** The process after [PromMiddleware(nil)]: the default options are at
    the first address. *)
Definition served : World := set_opts {[ 1%positive := default_opts ]} boot.

(** The process after [PromMiddleware(&no_40x)]. *)
Definition guarded : World :=
  set_opts {[ 1%positive := set_EndpointLabelMappingFn (Some raw_path) no_40x ]}
    boot.

(** The process when [&no_40x] exists and no middleware was built yet. *)
Definition configured : World := set_opts {[ 1%positive := no_40x ]} boot.

(** The state in which the rest of the chain leaves [w]: the handler has
    read the clock once. *)
Definition downstream (w : World) : World := set_reads 1 w.

(** [GET /%ff]: the path of the parsed URL is a slash and the byte 255,
    which is not valid UTF-8; no route matches and the chain answers 404
    with 18 bytes. *)
Definition bad_path : string :=
  String (Ascii.ascii_of_N 47) (String (Ascii.ascii_of_N 255) EmptyString).
Definition bad_url : url_URL :=
  {| Scheme := ""; Path := bad_path; RawQuery := "" |}.
Definition get_bad : http_Request :=
  {| URL := Some bad_url; Method := "GET"; Proto := "HTTP/1.1";
     Header := ∅; Host := "localhost:8080"; ContentLength := 0 |}.
Definition c_bad : gin_Context := ctx get_bad 0 (-1).
Definition c_bad_404 : gin_Context := ctx get_bad 404 18.

(** Two ticks, a request, and one more tick. *)
Definition events : list Event :=
  [Tick 1000000000; Tick 2000000000; Serve 1 (respond 200 17) c0;
   Tick 3000000000].

End Sample.

(* ===================================================================== *)
(** ** Vocabulary of the further properties *)
(* ===================================================================== *)

(** Every child of [m] is still a child of [m'], and its counter has not
    decreased. *)
Definition counts_le (m m' : gmap (list string) N) : Prop :=
  forall k n, m !! k = Some n -> exists n', m' !! k = Some n' /\ (n <= n')%N.

(** Every child of [m] is still a child of [m'], and what it had observed
    is the beginning of what it has observed now. *)
Definition samples_le (m m' : gmap (list string) (list float64)) : Prop :=
  forall k xs, m !! k = Some xs -> exists xs', m' !! k = Some xs' /\ xs `prefix_of` xs'.

(** The registry [r'] continues [r]: no child was removed, no counter
    decreased, no observation was dropped or changed. *)
Definition registry_le (r r' : Registry) : Prop :=
  counts_le (uptime r) (uptime r') /\
  counts_le (reqCount r) (reqCount r') /\
  samples_le (reqDuration r) (reqDuration r') /\
  samples_le (reqSizeBytes r) (reqSizeBytes r') /\
  samples_le (respSizeBytes r) (respSizeBytes r').

(** [m] only continues the registry, whether it returns or panics. *)
Definition grows {A : Type} (m : M A) : Prop :=
  forall w, registry_le (registry w) (registry (m w).2).


(** The rest of the chain of a served request only continues the
    registry. *)
Definition downstream_grows (e : Event) : Prop :=
  match e with
  | Tick _ => True
  | Serve _ Next _ => forall c, grows (Next c)
  end.

(** [po] and [po'] have the same three patterns. *)
Definition same_patterns (po po' : PromOpts) : Prop :=
  ExcludeRegexStatus po' = ExcludeRegexStatus po /\
  ExcludeRegexEndpoint po' = ExcludeRegexEndpoint po /\
  ExcludeRegexMethod po' = ExcludeRegexMethod po.

Definition set_Header (h : gmap string (list string)) (r : http_Request)
    : http_Request :=
  {| URL := URL r; Method := Method r; Proto := Proto r; Header := h;
     Host := Host r; ContentLength := ContentLength r |}.

(** The value of [size] when [calcRequestSize] enters the loop over the
    header of a request whose URL is present. *)
Definition size_before_header (r : http_Request) : Z :=
  Int64.add (Int64.add 0 (len (Method r))) (len (Proto r)).

(** [x] is [+0], [+Inf] or a finite number whose sign bit is clear. *)
Definition float64_nonneg_class (x : float64) : Prop :=
  x = S754_zero false \/ x = S754_infinity false \/
  exists m e, x = S754_finite false m e.

(** Sample inputs of the further properties. *)
Module Fixture.

(** Options whose mapping function returns a fixed label and does not
    read the request. *)
Definition fixed_opts : PromOpts :=
  set_EndpointLabelMappingFn (Some (fun _ => Ok "/fixed"%string)) default_opts.

(** The process when a middleware was built from [&fixed_opts]. *)
Definition fixed : World := set_opts {[ 1%positive := fixed_opts ]} Sample.boot.

(** A request built by hand without URL, before and after the chain
    answered 200 with 17 bytes. *)
Definition c_no_url : gin_Context := Sample.ctx Sample.no_url 0 (-1).
Definition c_no_url_200 : gin_Context := Sample.ctx Sample.no_url 200 17.

(** A chain that panics. *)
Definition panicking : gin_Context -> M gin_Context :=
  fun _ => lift (Panic "handler failed"%string).

(** An [http.Handler] that answers 200 with 512 bytes, as an exposition
    handler does. *)
Definition exposition : http_Handler :=
  fun _ _ => M_ret {| Status := 200; Size := 512 |}.

(** [GET /index] with two header names, one of them with two values. *)
Definition two_headers : http_Request :=
  set_Header
    {[ "Accept"%string := ["*/*"%string];
       "Accept-Encoding"%string := ["gzip"; "br"]%string ]}
    Sample.get_index.

End Fixture.

(* ===================================================================== *)
(** ** Facts about 64-bit arithmetic *)
(* ===================================================================== *)

Lemma wrap64_in_range (x : Z) : Int64.in_range (Int64.wrap64 x).
Proof.
  unfold Int64.in_range, Int64.wrap64, Int64.min_int, Int64.max_int.
  pose proof (Z.mod_pos_bound (x + 2 ^ 63) (2 ^ 64)). lia.
Qed.

Lemma wrap64_id (x : Z) : Int64.in_range x -> Int64.wrap64 x = x.
Proof.
  unfold Int64.in_range, Int64.wrap64, Int64.min_int, Int64.max_int.
  intros Hx. rewrite Z.mod_small by lia. lia.
Qed.

Lemma wrap64_add_l (a b : Z) :
  Int64.wrap64 (Int64.wrap64 a + b) = Int64.wrap64 (a + b).
Proof.
  unfold Int64.wrap64.
  replace ((a + 2 ^ 63) mod 2 ^ 64 - 2 ^ 63 + b + 2 ^ 63)
    with ((a + 2 ^ 63) mod 2 ^ 64 + b) by lia.
  rewrite Zplus_mod_idemp_l. do 2 f_equal. lia.
Qed.

Lemma wrap64_add_r (a b : Z) :
  Int64.wrap64 (a + Int64.wrap64 b) = Int64.wrap64 (a + b).
Proof. rewrite (Z.add_comm a), wrap64_add_l. f_equal. lia. Qed.

Lemma wrap64_idem (a : Z) : Int64.wrap64 (Int64.wrap64 a) = Int64.wrap64 a.
Proof. apply wrap64_id, wrap64_in_range. Qed.

Lemma len_nonneg (s : string) : 0 <= len s.
Proof. unfold len. lia. Qed.

(* ===================================================================== *)
(** ** Facts about the header loop *)
(* ===================================================================== *)

Lemma values_bytes_nonneg (values : list string) : 0 <= values_bytes values.
Proof.
  induction values as [|v vs IH]; simpl; [lia|].
  pose proof (len_nonneg v). lia.
Qed.

Lemma header_bytes_nonneg (entries : list (string * list string)) :
  0 <= header_bytes entries.
Proof.
  induction entries as [|[name vs] es IH]; simpl; [lia|].
  pose proof (len_nonneg name). pose proof (values_bytes_nonneg vs). lia.
Qed.

Lemma header_bytes_Permutation (es es' : list (string * list string)) :
  es ≡ₚ es' -> header_bytes es = header_bytes es'.
Proof. induction 1; simpl; lia. Qed.

Lemma add_values_wrap (size : Z) (values : list string) :
  Int64.wrap64 (add_values size values)
  = Int64.wrap64 (size + values_bytes values).
Proof.
  revert size. induction values as [|v vs IH]; intros size; simpl.
  - f_equal. lia.
  - fold (add_values (Int64.add size (len v)) vs).
    rewrite IH. unfold Int64.add. rewrite wrap64_add_l. f_equal. lia.
Qed.

Lemma range_Header_wrap (size : Z) (entries : list (string * list string)) :
  Int64.wrap64 (range_Header size entries)
  = Int64.wrap64 (size + header_bytes entries).
Proof.
  revert size. induction entries as [|[name vs] es IH]; intros size; simpl.
  - f_equal. lia.
  - fold (range_Header (add_header size (name, vs)) es).
    rewrite IH. unfold add_header; simpl.
    rewrite <- wrap64_add_l, add_values_wrap.
    unfold Int64.add. rewrite !wrap64_add_l, <- !Z.add_assoc, wrap64_add_l.
    f_equal. lia.
Qed.

Lemma add_values_in_range (size : Z) (values : list string) :
  Int64.in_range size -> Int64.in_range (add_values size values).
Proof.
  revert size. induction values as [|v vs IH]; intros size Hs; simpl; [done|].
  apply IH, wrap64_in_range.
Qed.

Lemma range_Header_in_range (size : Z) (entries : list (string * list string)) :
  Int64.in_range size -> Int64.in_range (range_Header size entries).
Proof.
  revert size. induction entries as [|e es IH]; intros size Hs; simpl; [done|].
  apply IH, add_values_in_range, wrap64_in_range.
Qed.

(** The order in which [range] visits the header does not change what the
    loop computes. *)
Lemma range_Header_Permutation (size : Z) (es es' : list (string * list string)) :
  Int64.in_range size -> es ≡ₚ es' ->
  range_Header size es = range_Header size es'.
Proof.
  intros Hs Hp.
  rewrite <- (wrap64_id (range_Header size es))
    by (by apply range_Header_in_range).
  rewrite <- (wrap64_id (range_Header size es'))
    by (by apply range_Header_in_range).
  by rewrite !range_Header_wrap, (header_bytes_Permutation _ _ Hp).
Qed.

(* ===================================================================== *)
(** ** Facts about the conversion to [float64] *)
(* ===================================================================== *)

Section Rounding.

Variables prec emax : Z.

Lemma iter_pos_invariant {A : Type} (P : A -> Prop) (f : A -> A) :
  (forall x, P x -> P (f x)) ->
  forall (n : positive) (x : A), P x -> P (SpecFloat.iter_pos f n x).
Proof.
  intros Hf. induction n as [n IH|n IH|]; intros x Hx; simpl; auto.
Qed.

Lemma shr_1_nonneg (mrs : shr_record) :
  0 <= shr_m mrs -> 0 <= shr_m (shr_1 mrs).
Proof.
  destruct mrs as [m r s]; simpl.
  destruct m as [|[p|p|]|p]; simpl; intros; lia.
Qed.

Lemma shr_nonneg (mrs : shr_record) (e n : Z) :
  0 <= shr_m mrs -> 0 <= shr_m (shr mrs e n).1.
Proof.
  intros Hm. destruct n as [|p|p]; simpl; auto.
  by apply iter_pos_invariant; [apply shr_1_nonneg|].
Qed.

Lemma shr_record_of_loc_m (m : Z) (l : location) :
  shr_m (shr_record_of_loc m l) = m.
Proof. by destruct l as [|[]]. Qed.

Lemma shr_fexp_nonneg (m e : Z) (l : location) :
  0 <= m -> 0 <= shr_m (shr_fexp prec emax m e l).1.
Proof.
  intros Hm. unfold shr_fexp. apply shr_nonneg.
  by rewrite shr_record_of_loc_m.
Qed.

Lemma round_nearest_even_nonneg (mx : Z) (lx : location) :
  0 <= mx -> 0 <= round_nearest_even mx lx.
Proof.
  intros Hm. destruct lx as [|[]]; simpl; try lia.
  destruct (Z.even mx); lia.
Qed.

(** Rounding a non-negative significand keeps the sign it is given. *)
Lemma binary_round_aux_sign (sx : bool) (mx ex : Z) (lx : location) :
  0 <= mx ->
  binary_round_aux prec emax sx mx ex lx = S754_zero sx \/
  binary_round_aux prec emax sx mx ex lx = S754_infinity sx \/
  exists m e, binary_round_aux prec emax sx mx ex lx = S754_finite sx m e.
Proof.
  intros Hm. unfold binary_round_aux.
  pose proof (shr_fexp_nonneg mx ex lx Hm) as H1.
  destruct (shr_fexp prec emax mx ex lx) as [mrs' e']; simpl in H1.
  pose proof (shr_fexp_nonneg _ e' loc_Exact
    (round_nearest_even_nonneg _ (loc_of_shr_record mrs') H1)) as H2.
  destruct (shr_fexp prec emax _ e' loc_Exact) as [mrs'' e'']; simpl in H2.
  destruct (shr_m mrs'') as [|m|m]; [by left| |lia].
  destruct (e'' <=? emax - prec); eauto.
Qed.

Lemma binary_round_sign (sx : bool) (mx : positive) (ex : Z) :
  binary_round prec emax sx mx ex = S754_zero sx \/
  binary_round prec emax sx mx ex = S754_infinity sx \/
  exists m e, binary_round prec emax sx mx ex = S754_finite sx m e.
Proof.
  unfold binary_round.
  destruct (shl_align mx ex _) as [mz ez].
  apply binary_round_aux_sign. lia.
Qed.

End Rounding.

Lemma of_int_0 : Float64.of_int 0 = Float64.zero.
Proof. reflexivity. Qed.

(** [float64(n) >= 0] for every [n >= 0]. *)
Lemma of_int_nonneg (n : Z) : 0 <= n -> Float64.nonneg (Float64.of_int n).
Proof.
  intros Hn. unfold Float64.nonneg, Float64.leb, Float64.of_int.
  destruct n as [|p|p]; [done| |lia]. simpl.
  destruct (binary_round_sign Float64.prec Float64.emax false p 0)
    as [-> | [-> | (m & e & ->)]]; reflexivity.
Qed.

(* ===================================================================== *)
(** ** Facts about [calcRequestSize] *)
(* ===================================================================== *)

Lemma calcRequestSize_present (URL_String : url_URL -> string)
    (r : http_Request) (u : url_URL) :
  URL r = Some u ->
  calcRequestSize URL_String (Some r)
  = Ok (Float64.of_int (Int64.wrap64 (request_bytes r))).
Proof.
  intros Hu. unfold calcRequestSize; simpl. rewrite Hu; simpl.
  do 2 f_equal. unfold request_bytes.
  set (h := map_to_list (Header r)).
  assert (Hh : Int64.add (range_Header
                 (Int64.add (Int64.add 0 (len (Method r))) (len (Proto r))) h)
                 (len (Host r))
               = Int64.wrap64 (len (Method r) + len (Proto r) + header_bytes h
                               + len (Host r))).
  { unfold Int64.add at 1. rewrite <- wrap64_add_l, range_Header_wrap.
    unfold Int64.add. rewrite !wrap64_add_l, <- !Z.add_assoc, wrap64_add_l.
    f_equal. lia. }
  rewrite Hh. case_bool_decide.
  - unfold Int64.add. rewrite wrap64_add_l, wrap64_add_r. done.
  - f_equal. lia.
Qed.

Lemma calcRequestSize_absent (URL_String : url_URL -> string)
    (r : http_Request) :
  URL r = None ->
  calcRequestSize URL_String (Some r) = Panic nil_dereference.
Proof. intros Hu. unfold calcRequestSize; simpl. by rewrite Hu. Qed.

Lemma request_bytes_nonneg (r : http_Request) :
  -1 <= ContentLength r -> 0 <= request_bytes r.
Proof.
  intros Hc. unfold request_bytes.
  pose proof (len_nonneg (Method r)). pose proof (len_nonneg (Proto r)).
  pose proof (len_nonneg (Host r)).
  pose proof (header_bytes_nonneg (map_to_list (Header r))).
  case_bool_decide; lia.
Qed.

(* ===================================================================== *)
(** ** Facts about the registry operations *)
(* ===================================================================== *)

Lemma alter_child_or_new {S : Type} (f : S -> S) (new : S)
    (m : gmap (list string) S) (lvs : list string) :
  alter f lvs (child_or_new new m lvs) = <[lvs := f (default new (m !! lvs))]> m.
Proof.
  unfold child_or_new. apply map_eq; intros k.
  destruct (m !! lvs) as [x|] eqn:Hm; simpl.
  - destruct (decide (lvs = k)) as [<-|Hne].
    + by rewrite lookup_alter_eq, Hm, lookup_insert_eq.
    + by rewrite lookup_alter_ne, lookup_insert_ne.
  - destruct (decide (lvs = k)) as [<-|Hne].
    + by rewrite lookup_alter_eq, !lookup_insert_eq.
    + by rewrite lookup_alter_ne, !lookup_insert_ne.
Qed.

Lemma ascii_only_valid (s : string) :
  ascii_only s = true -> utf8_ValidString s = true.
Proof.
  induction s as [|a s IH]; [done|]. cbn [ascii_only utf8_ValidString].
  intros [Ha Hs]%andb_true_iff. rewrite Ha. by apply IH.
Qed.

Lemma pretty_N_char_ascii (x : N) :
  (Ascii.N_of_ascii (pretty_N_char x) <? 128)%N = true.
Proof. unfold pretty_N_char. by repeat case_match. Qed.

Lemma pretty_N_go_ascii (x : N) (s : string) :
  ascii_only s = true -> ascii_only (pretty_N_go x s) = true.
Proof.
  revert s. induction (N.lt_wf_0 x) as [x _ IH]; intros s Hs.
  destruct (decide (0 < x)%N) as [Hx|Hx].
  - rewrite pretty_N_go_step by done. apply IH.
    + by apply N.div_lt.
    + cbn [ascii_only]. by rewrite pretty_N_char_ascii.
  - assert (x = 0%N) as -> by lia. by rewrite pretty_N_go_0.
Qed.

Lemma pretty_N_ascii (x : N) : ascii_only (pretty x) = true.
Proof.
  unfold pretty, pretty_N. case_decide; [done|]. by apply pretty_N_go_ascii.
Qed.

(** The decimal string of an integer is valid UTF-8. *)
Lemma Itoa_valid (n : Z) : utf8_ValidString (Itoa n) = true.
Proof.
  apply ascii_only_valid. unfold Itoa, pretty, pretty_Z.
  destruct n as [|p|p]; [done|apply pretty_N_ascii|].
  cbn [String.app ascii_only]. apply pretty_N_ascii.
Qed.

Lemma labels_valid (status : Z) (endpoint method : string) :
  utf8_ValidString endpoint = true ->
  utf8_ValidString method = true ->
  forallb utf8_ValidString [Itoa status; endpoint; method] = true.
Proof. intros He Hm. cbn [forallb]. by rewrite Itoa_valid, He, Hm. Qed.

Lemma set_registry_id (w : World) : set_registry (registry w) w = w.
Proof. by destruct w. Qed.

Lemma WithLabelValues_run {S : Type} (v : MetricVec S) (lvs : list string)
    (w : World) :
  length lvs = length (variableLabels v) ->
  forallb utf8_ValidString lvs = true ->
  (forall r, set_children v (children v r) r = r) ->
  WithLabelValues v lvs w
  = (Ok lvs,
     set_registry
       (set_children v (child_or_new (newMetric v) (children v (registry w)) lvs)
          (registry w)) w).
Proof.
  intros Hlen Hvalid Hid. unfold WithLabelValues, child_or_new.
  rewrite bool_decide_eq_true_2 by done. rewrite Hvalid.
  destruct (children v (registry w) !! lvs); [|done].
  by rewrite Hid, set_registry_id.
Qed.

Ltac run_WithLabelValues :=
  apply WithLabelValues_run;
  [reflexivity | first [reflexivity | assumption] | by intros []].

Lemma M_bind_Ok {A B : Type} (m : M A) (k : A -> M B) (w w' : World) (a : A) :
  m w = (Ok a, w') -> M_bind m k w = k a w'.
Proof. intros H. unfold M_bind. by rewrite H. Qed.


(* ===================================================================== *)
(** ** Facts about the handler *)
(* ===================================================================== *)

Section HandlerFacts.

Variable regexp_MatchString : string -> string -> bool * option string.
Variable URL_String : url_URL -> string.

Local Abbreviation checkLabel := (checkLabel regexp_MatchString).
Local Abbreviation handler := (handler regexp_MatchString URL_String).
Local Abbreviation passes := (passes regexp_MatchString).

(** Runs the handler up to the computation of [ok]: the clock is read,
    the rest of the chain returns, and the three labels are derived. *)
Ltac run_to_check HN Hpo Hfn Hep Hr :=
  erewrite M_bind_Ok by reflexivity;
  rewrite (M_bind_Ok _ _ _ _ _ HN);
  erewrite M_bind_Ok by (unfold load; rewrite Hpo; reflexivity);
  erewrite M_bind_Ok by (unfold lift; rewrite Hfn; reflexivity);
  erewrite M_bind_Ok by (unfold lift; rewrite Hep; reflexivity);
  erewrite M_bind_Ok by (unfold lift; rewrite Hr; reflexivity);
  erewrite M_bind_Ok by (unfold load; rewrite Hpo; reflexivity).

Lemma handler_suppressed promOpts Next c w c1 w1 po endpoint r :
  completes promOpts Next c w c1 w1 po endpoint r ->
  passes po (Itoa (Status (Writer c1))) endpoint (Method r) = false ->
  handler promOpts Next c w = (Ok c1, w1).
Proof.
  intros [HN Hpo (fn & Hfn & Hep) Hr] Hok. unfold handler.
  run_to_check HN Hpo Hfn Hep Hr.
  unfold passes in Hok. rewrite Hok. done.
Qed.

Lemma handler_recorded promOpts Next c w c1 w1 po endpoint r u :
  completes promOpts Next c w c1 w1 po endpoint r ->
  passes po (Itoa (Status (Writer c1))) endpoint (Method r) = true ->
  utf8_ValidString endpoint = true ->
  utf8_ValidString (Method r) = true ->
  URL r = Some u ->
  handler promOpts Next c w
  = (Ok c1,
     set_reads (S (reads w1))
       (set_registry
          (recorded [Itoa (Status (Writer c1)); endpoint; Method r]
             (elapsed w w1)
             (Float64.of_int (Int64.wrap64 (request_bytes r)))
             (response_size c1) (registry w1)) w1)).
Proof.
  intros [HN Hpo (fn & Hfn & Hep) Hr] Hok Hve Hvm Hu. unfold handler.
  run_to_check HN Hpo Hfn Hep Hr.
  unfold passes in Hok. rewrite Hok.
  change (negb true) with false. cbv iota.
  pose proof (labels_valid (Status (Writer c1)) _ _ Hve Hvm) as Hvalid.
  set (lvs := [Itoa (Status (Writer c1)); endpoint; Method r]) in *.
  erewrite M_bind_Ok by run_WithLabelValues.
  erewrite M_bind_Ok by reflexivity.
  erewrite M_bind_Ok by run_WithLabelValues.
  erewrite M_bind_Ok by reflexivity.
  erewrite M_bind_Ok by reflexivity.
  erewrite M_bind_Ok by run_WithLabelValues.
  erewrite M_bind_Ok
    by (unfold lift; rewrite Hr, (calcRequestSize_present _ _ _ Hu); reflexivity).
  erewrite M_bind_Ok by reflexivity.
  erewrite M_bind_Ok by run_WithLabelValues.
  erewrite M_bind_Ok by reflexivity.
  unfold M_ret. f_equal.
  unfold time_Since, time_Now, M_bind, M_ret.
  cbn [registry opts timeline reads set_registry set_reads
       children set_children newMetric
       reqCount_vec reqDuration_vec reqSizeBytes_vec respSizeBytes_vec
       set_reqCount set_reqDuration set_reqSizeBytes set_respSizeBytes
       uptime reqCount reqDuration reqSizeBytes respSizeBytes].
  rewrite !alter_child_or_new.
  unfold recorded, elapsed, response_size, count, samples,
    set_registry, set_reads, set_reqCount, set_reqDuration,
    set_reqSizeBytes, set_respSizeBytes.
  cbn [registry opts timeline reads children
       reqCount_vec reqDuration_vec reqSizeBytes_vec respSizeBytes_vec
       uptime reqCount reqDuration reqSizeBytes respSizeBytes].
  reflexivity.
Qed.


(** *** What [PromMiddleware] builds *)

Local Abbreviation PromMiddleware :=
  (PromMiddleware regexp_MatchString URL_String).

Lemma PromMiddleware_nil (w : World) :
  PromMiddleware None w
  = (Ok (handler (fresh (dom (opts w)))),
     set_opts (<[fresh (dom (opts w)) := default_opts]> (opts w)) w).
Proof.
  unfold PromMiddleware.
  erewrite M_bind_Ok by reflexivity.
  erewrite M_bind_Ok
    by (unfold load; cbn [opts set_opts]; by rewrite lookup_insert_eq).
  reflexivity.
Qed.

Lemma PromMiddleware_no_fn (l : positive) (po : PromOpts) (w : World) :
  opts w !! l = Some po ->
  EndpointLabelMappingFn po = None ->
  PromMiddleware (Some l) w
  = (Ok (handler l),
     set_opts (<[l := set_EndpointLabelMappingFn (Some raw_path) po]> (opts w)) w).
Proof.
  intros Hpo Hfn. unfold PromMiddleware.
  erewrite M_bind_Ok by reflexivity.
  erewrite M_bind_Ok by (unfold load; by rewrite Hpo).
  rewrite Hfn. reflexivity.
Qed.

Lemma PromMiddleware_with_fn (l : positive) (po : PromOpts)
    (fn : RequestLabelMappingFn) (w : World) :
  opts w !! l = Some po ->
  EndpointLabelMappingFn po = Some fn ->
  PromMiddleware (Some l) w = (Ok (handler l), w).
Proof.
  intros Hpo Hfn. unfold PromMiddleware.
  erewrite M_bind_Ok by reflexivity.
  erewrite M_bind_Ok by (unfold load; by rewrite Hpo).
  rewrite Hfn. reflexivity.
Qed.


(** *** The handler leaves the uptime counter alone *)

Lemma keeps_uptime_bind {A B : Type} (m : M A) (k : A -> M B) :
  keeps_uptime m -> (forall a, keeps_uptime (k a)) ->
  keeps_uptime (M_bind m k).
Proof.
  intros Hm Hk w. unfold M_bind. specialize (Hm w).
  destruct (m w) as [[a|msg] w']; simpl in *; [|done].
  by rewrite Hk.
Qed.

Lemma keeps_uptime_ret {A : Type} (a : A) : keeps_uptime (M_ret a).
Proof. done. Qed.

Lemma keeps_uptime_lift {A : Type} (o : Outcome A) : keeps_uptime (lift o).
Proof. done. Qed.

Lemma keeps_uptime_load (l : positive) : keeps_uptime (load l).
Proof. done. Qed.

Lemma keeps_uptime_Now : keeps_uptime time_Now.
Proof. done. Qed.

Lemma keeps_uptime_Since (start : Z) : keeps_uptime (time_Since start).
Proof. done. Qed.

Lemma keeps_uptime_WithLabelValues {S : Type} (v : MetricVec S)
    (lvs : list string) :
  (forall m r, uptime (set_children v m r) = uptime r) ->
  keeps_uptime (WithLabelValues v lvs).
Proof.
  intros Hv w. unfold WithLabelValues.
  case_bool_decide; [|done]. destruct (forallb _ lvs); [|done].
  destruct (children v (registry w) !! lvs); [done|]. simpl. apply Hv.
Qed.

Lemma keeps_uptime_Inc (v : MetricVec N) (child : list string) :
  (forall m r, uptime (set_children v m r) = uptime r) ->
  keeps_uptime (Inc v child).
Proof. intros Hv w. simpl. apply Hv. Qed.

Lemma keeps_uptime_Observe (v : MetricVec (list float64))
    (child : list string) (x : float64) :
  (forall m r, uptime (set_children v m r) = uptime r) ->
  keeps_uptime (Observe v child x).
Proof. intros Hv w. simpl. apply Hv. Qed.

Lemma handler_keeps_uptime (promOpts : positive)
    (Next : gin_Context -> M gin_Context) (c : gin_Context) :
  (forall c', keeps_uptime (Next c')) ->
  keeps_uptime (handler promOpts Next c).
Proof.
  intros HN. unfold handler.
  repeat first
    [ apply keeps_uptime_bind; [|intros ?]
    | apply keeps_uptime_ret | apply keeps_uptime_lift
    | apply keeps_uptime_load | apply keeps_uptime_Now
    | apply keeps_uptime_Since | apply HN
    | apply keeps_uptime_WithLabelValues; done
    | apply keeps_uptime_Inc; done
    | apply keeps_uptime_Observe; done
    | match goal with |- keeps_uptime (if ?b then _ else _) => destruct b end ].
Qed.

End HandlerFacts.

(* ===================================================================== *)
(** ** The properties of the design document *)
(* ===================================================================== *)

Lemma recorded_incremented lvs d req resp reg :
  incremented_once reqCount_vec reg (recorded lvs d req resp reg) lvs.
Proof.
  split; simpl.
  - by rewrite lookup_insert_eq, N.add_1_r.
  - intros k Hk. by rewrite lookup_insert_ne.
Qed.

Lemma recorded_duration lvs d req resp reg :
  observed_once reqDuration_vec reg (recorded lvs d req resp reg) lvs d.
Proof.
  split; simpl; [by rewrite lookup_insert_eq|].
  intros k Hk. by rewrite lookup_insert_ne.
Qed.

Lemma recorded_request_size lvs d req resp reg :
  observed_once reqSizeBytes_vec reg (recorded lvs d req resp reg) lvs req.
Proof.
  split; simpl; [by rewrite lookup_insert_eq|].
  intros k Hk. by rewrite lookup_insert_ne.
Qed.

Lemma recorded_response_size lvs d req resp reg :
  observed_once respSizeBytes_vec reg (recorded lvs d req resp reg) lvs resp.
Proof.
  split; simpl; [by rewrite lookup_insert_eq|].
  intros k Hk. by rewrite lookup_insert_ne.
Qed.

Lemma response_size_nonneg (c1 : gin_Context) :
  Float64.nonneg (response_size c1).
Proof.
  unfold response_size. apply of_int_nonneg.
  destruct (Z.ltb_spec (Size (Writer c1)) 0); lia.
Qed.

Lemma response_size_zero (c1 : gin_Context) :
  Size (Writer c1) <= 0 -> response_size c1 = Float64.zero.
Proof.
  intros Hs. unfold response_size.
  destruct (Z.ltb_spec (Size (Writer c1)) 0); [done|].
  by replace (Size (Writer c1)) with 0 by lia.
Qed.

Section Claims.

Variable regexp_MatchString : string -> string -> bool * option string.
Variable URL_String : url_URL -> string.

Local Abbreviation checkLabel := (checkLabel regexp_MatchString).
Local Abbreviation handler := (handler regexp_MatchString URL_String).
Local Abbreviation PromMiddleware :=
  (PromMiddleware regexp_MatchString URL_String).
Local Abbreviation passes := (passes regexp_MatchString).
Local Abbreviation suppresses := (suppresses regexp_MatchString).
Local Abbreviation fails_to_compile := (fails_to_compile regexp_MatchString).
Local Abbreviation run := (run regexp_MatchString URL_String).

Lemma checkLabel_empty (po : PromOpts) (label : string) :
  checkLabel po label "" = true.
Proof. reflexivity. Qed.

Lemma passes_no_suppression (po : PromOpts) (status endpoint method : string) :
  no_suppression po -> passes po status endpoint method = true.
Proof.
  intros (Hs & He & Hm). unfold passes.
  by rewrite Hs, He, Hm, !checkLabel_empty.
Qed.

Lemma suppresses_fails (po : PromOpts) (pattern label : string) :
  suppresses pattern label -> checkLabel po label pattern = false.
Proof.
  intros [Hne Hm]. unfold checkLabel.
  rewrite bool_decide_eq_false_2 by done. rewrite Hm.
  by rewrite bool_decide_eq_false_2 by (intros H; by apply H).
Qed.

(** C1, as the code has it.  A completed request whose endpoint and
    method labels are valid UTF-8, served with no suppression configured
    (the three patterns are empty), increments the request-count series
    exactly once and makes exactly one observation on each of the
    duration, request-size and response-size series; the four updates are
    made at the same label values, the status, endpoint and method of the
    request, and no other child of any series changes.  The request has
    a URL, as every request the server parses has. *)
Theorem records_exactly_once promOpts Next c w c1 w1 po endpoint r u :
  completes promOpts Next c w c1 w1 po endpoint r ->
  no_suppression po ->
  utf8_ValidString endpoint = true ->
  utf8_ValidString (Method r) = true ->
  URL r = Some u ->
  let lvs := [Itoa (Status (Writer c1)); endpoint; Method r] in
  exists w2 req,
    handler promOpts Next c w = (Ok c1, w2) /\
    calcRequestSize URL_String (Request c1) = Ok req /\
    incremented_once reqCount_vec (registry w1) (registry w2) lvs /\
    observed_once reqDuration_vec (registry w1) (registry w2) lvs (elapsed w w1) /\
    observed_once reqSizeBytes_vec (registry w1) (registry w2) lvs req /\
    observed_once respSizeBytes_vec (registry w1) (registry w2) lvs
      (response_size c1) /\
    uptime (registry w2) = uptime (registry w1).
Proof.
  intros Hc Hn Hve Hvm Hu lvs.
  pose proof (handler_recorded regexp_MatchString URL_String _ _ _ _ _ _ _ _ _ _
                Hc (passes_no_suppression _ _ _ _ Hn) Hve Hvm Hu) as Hrun.
  eexists _, _. split; [exact Hrun|]. cbn [registry set_registry set_reads].
  split.
  { rewrite (request_present _ _ _ _ _ _ _ _ _ Hc).
    by apply calcRequestSize_present with u. }
  repeat split;
    first [ apply recorded_incremented | apply recorded_duration
          | apply recorded_request_size | apply recorded_response_size ].
Qed.

(** C2. When the status, the endpoint or the method of a completed request
    matches the pattern configured for it, the handler updates nothing: it
    returns in the state the rest of the chain left, so none of the count,
    duration, request-size and response-size series is modified. *)
Theorem suppressed_updates_nothing promOpts Next c w c1 w1 po endpoint r :
  completes promOpts Next c w c1 w1 po endpoint r ->
  suppresses (ExcludeRegexStatus po) (Itoa (Status (Writer c1))) \/
  suppresses (ExcludeRegexEndpoint po) endpoint \/
  suppresses (ExcludeRegexMethod po) (Method r) ->
  exists w2,
    handler promOpts Next c w = (Ok c1, w2) /\
    w2 = w1 /\
    reqCount (registry w2) = reqCount (registry w1) /\
    reqDuration (registry w2) = reqDuration (registry w1) /\
    reqSizeBytes (registry w2) = reqSizeBytes (registry w1) /\
    respSizeBytes (registry w2) = respSizeBytes (registry w1).
Proof.
  intros Hc Hs. exists w1. split; [|done].
  apply handler_suppressed with po endpoint r; [done|]. unfold passes.
  destruct Hs as [Hs | [Hs | Hs]];
    rewrite (suppresses_fails po _ _ Hs);
    rewrite ?andb_false_r; reflexivity.
Qed.

(** C3. For every label, the empty one included, the check passes when the
    pattern is empty, and it passes when the pattern does not compile: a
    pattern that does not compile is treated as the empty pattern is. *)
Theorem checkLabel_fails_open (po : PromOpts) (label pattern : string) :
  pattern = ""%string \/ fails_to_compile pattern label ->
  checkLabel po label pattern = true /\
  checkLabel po label pattern = checkLabel po label "".
Proof.
  intros H. rewrite checkLabel_empty.
  assert (checkLabel po label pattern = true) as ->; [|done].
  destruct H as [-> | Herr]; [done|]. unfold checkLabel.
  case_bool_decide; [done|].
  unfold fails_to_compile in Herr.
  destruct (regexp_MatchString pattern label) as [matched err]; simpl in Herr.
  by rewrite bool_decide_eq_true_2.
Qed.

(** C4, as the code has it.  For a request whose URL is present, whose
    content length is at least the sentinel [-1], and whose parts sum to
    at most the largest [int], [calcRequestSize] returns [float64(size)]
    for an integer [size >= 0], a value that is not negative; and a
    content length of [-1] contributes what a content length of [0]
    does. *)
Theorem calcRequestSize_nonneg (r : http_Request) (u : url_URL) :
  URL r = Some u ->
  -1 <= ContentLength r ->
  request_bytes r <= Int64.max_int ->
  exists size,
    calcRequestSize URL_String (Some r) = Ok (Float64.of_int size) /\
    0 <= size /\
    Float64.nonneg (Float64.of_int size) /\
    calcRequestSize URL_String (Some (set_ContentLength (-1) r))
    = calcRequestSize URL_String (Some (set_ContentLength 0 r)).
Proof.
  intros Hu Hc Hmax. pose proof (request_bytes_nonneg r Hc) as H0.
  exists (request_bytes r). split; [|split; [done|split]].
  - rewrite (calcRequestSize_present _ _ _ Hu). do 2 f_equal.
    apply wrap64_id. unfold Int64.in_range, Int64.min_int. lia.
  - by apply of_int_nonneg.
  - rewrite !(calcRequestSize_present _ _ u) by done. reflexivity.
Qed.

(** C5. For a request whose URL is present, the size is computed from the
    method, the protocol, the header, the host and the content length
    alone: putting any other URL in the request leaves the result
    unchanged.  The one branch that reaches for the URL's string is the
    branch taken when the URL is absent, where the call dereferences the
    nil pointer. *)
Theorem URL_length_not_counted (r : http_Request) (u u' : url_URL) :
  URL r = Some u ->
  calcRequestSize URL_String (Some r)
  = Ok (Float64.of_int (Int64.wrap64 (request_bytes r))) /\
  calcRequestSize URL_String (Some (set_URL (Some u') r))
  = calcRequestSize URL_String (Some r) /\
  calcRequestSize URL_String (Some (set_URL None r)) = Panic nil_dereference.
Proof.
  intros Hu. split; [by apply calcRequestSize_present with u|]. split.
  - rewrite (calcRequestSize_present _ (set_URL (Some u') r) u') by done.
    by rewrite (calcRequestSize_present _ r u).
  - by apply calcRequestSize_absent.
Qed.

(** C10. For a request whose URL is present, [calcRequestSize] returns a
    value, never a panic, and nothing of the URL enters it: the value is
    the same whatever URL the request points to and whatever the [String]
    method of a URL would return. *)
Theorem URL_never_read (String1 String2 : url_URL -> string)
    (r : http_Request) (u u' : url_URL) :
  URL r = Some u ->
  is_Ok (calcRequestSize String1 (Some r)) /\
  calcRequestSize String1 (Some r)
  = calcRequestSize String2 (Some (set_URL (Some u') r)).
Proof.
  intros Hu. rewrite (calcRequestSize_present _ r u) by done.
  rewrite (calcRequestSize_present _ (set_URL (Some u') r) u') by done.
  split; [by eexists|done].
Qed.

(** C6. For a request that is recorded (it completes, passes the three
    checks, and its labels are accepted by the registry, being valid
    UTF-8), the value observed on the response-size series is not
    negative, and it is exactly zero when the writer reports a size of
    zero or less (the [-1] of a response without body included). *)
Theorem response_size_never_negative promOpts Next c w c1 w1 po endpoint r u :
  completes promOpts Next c w c1 w1 po endpoint r ->
  passes po (Itoa (Status (Writer c1))) endpoint (Method r) = true ->
  utf8_ValidString endpoint = true ->
  utf8_ValidString (Method r) = true ->
  URL r = Some u ->
  exists w2 resp,
    handler promOpts Next c w = (Ok c1, w2) /\
    observed_once respSizeBytes_vec (registry w1) (registry w2)
      [Itoa (Status (Writer c1)); endpoint; Method r] resp /\
    Float64.nonneg resp /\
    (Size (Writer c1) <= 0 -> resp = Float64.zero).
Proof.
  intros Hc Hok Hve Hvm Hu.
  pose proof (handler_recorded regexp_MatchString URL_String _ _ _ _ _ _ _ _ _ _
                Hc Hok Hve Hvm Hu) as Hrun.
  eexists _, (response_size c1). split; [exact Hrun|].
  cbn [registry set_registry set_reads].
  split; [apply recorded_response_size|].
  split; [apply response_size_nonneg|apply response_size_zero].
Qed.


Lemma recordUpTime_cons (t : Z) (ticks : list Z) (w : World) :
  recordUpTime (t :: ticks) w
  = recordUpTime ticks
      (set_registry
         (set_uptime
            (<[[] := N.succ (count uptime_vec (registry w) [])]>
               (uptime (registry w)))
            (registry w)) w).
Proof.
  cbn [recordUpTime].
  erewrite M_bind_Ok by run_WithLabelValues.
  erewrite M_bind_Ok by reflexivity.
  cbn [registry set_registry children set_children newMetric uptime_vec
       set_uptime uptime].
  by rewrite alter_child_or_new.
Qed.

Lemma step_Tick (t : Z) (w : World) :
  count uptime_vec (registry (step regexp_MatchString URL_String (Tick t) w)) []
  = (count uptime_vec (registry w) [] + 1)%N.
Proof.
  unfold step. rewrite recordUpTime_cons. unfold count; simpl.
  by rewrite lookup_insert_eq, N.add_1_r.
Qed.

Lemma step_Serve promOpts Next c (w : World) :
  (forall c', keeps_uptime (Next c')) ->
  uptime (registry (step regexp_MatchString URL_String (Serve promOpts Next c) w))
  = uptime (registry w).
Proof. intros HN. unfold step. by apply handler_keeps_uptime. Qed.

Lemma run_snoc (es : list Event) (e : Event) (w : World) :
  run (es ++ [e]) w = step regexp_MatchString URL_String e (run es w).
Proof. unfold run. by rewrite foldl_app. Qed.

Lemma run_cons (e : Event) (es : list Event) (w : World) :
  run (e :: es) w = run es (step regexp_MatchString URL_String e w).
Proof. reflexivity. Qed.

Lemma recordUpTime_run (ticks : list Z) (w : World) :
  recordUpTime ticks w = (Ok tt, run (map Tick ticks) w).
Proof.
  revert w. induction ticks as [|t ticks IH]; intros w; [done|].
  rewrite recordUpTime_cons, IH. cbn [map]. rewrite run_cons.
  unfold step. by rewrite recordUpTime_cons.
Qed.

Lemma ticks_in_map_Tick (ticks : list Z) :
  ticks_in (map Tick ticks) = length ticks.
Proof. induction ticks as [|t ticks IH]; [done|]. cbn. by rewrite IH. Qed.

Lemma run_counts_ticks (es : list Event) (w : World) :
  Forall downstream_keeps_uptime es ->
  count uptime_vec (registry (run es w)) []
  = (count uptime_vec (registry w) [] + N.of_nat (ticks_in es))%N.
Proof.
  intros Hes. revert w. induction Hes as [|e es He Hes IH]; intros w.
  - cbn. lia.
  - rewrite run_cons, IH.
    destruct e as [t|promOpts Next c].
    + rewrite step_Tick. cbn [ticks_in]. lia.
    + unfold count. cbn [children uptime_vec].
      by rewrite (step_Serve _ _ _ _ He).
Qed.

(** C8. Each tick the ticker receives increments the uptime counter by
    exactly one, whatever requests are served in between: after any
    sequence of ticks and served requests the counter has grown by the
    number of ticks in it, one more tick makes it one larger, and with no
    request at all [recordUpTime] has added one for each tick received. *)
Theorem uptime_counts_ticks (es : list Event) (w : World) :
  Forall downstream_keeps_uptime es ->
  count uptime_vec (registry (run es w)) []
  = (count uptime_vec (registry w) [] + N.of_nat (ticks_in es))%N /\
  (forall t,
     count uptime_vec (registry (run (es ++ [Tick t]) w)) []
     = (count uptime_vec (registry (run es w)) [] + 1)%N) /\
  (forall ticks,
     exists w',
       recordUpTime ticks w = (Ok tt, w') /\
       count uptime_vec (registry w') []
       = (count uptime_vec (registry w) [] + N.of_nat (length ticks))%N).
Proof.
  intros Hes. split; [by apply run_counts_ticks|]. split.
  - intros t. by rewrite run_snoc, step_Tick.
  - intros ticks. eexists. split; [apply recordUpTime_run|].
    rewrite run_counts_ticks, ticks_in_map_Tick; [done|].
    apply Forall_forall. intros e He.
    apply list_elem_of_fmap in He as (t & -> & _). exact I.
Qed.

(** C9. [PromMiddleware(nil)] is [PromMiddleware(NewDefaultOpts())]: the
    same handler in the same state, hence the same behaviour for every
    request; the options it runs with have no pattern and map a request
    to its raw path.  Likewise, building the middleware from options
    without mapping function gives the handler and the state that building
    it from the same options with the raw-path function gives. *)
Theorem nil_options_are_default_options (w : World) :
  PromMiddleware None w
  = (let! l := NewDefaultOpts in PromMiddleware (Some l)) w /\
  (exists l w',
     PromMiddleware None w = (Ok (handler l), w') /\
     opts w' !! l = Some default_opts /\
     no_suppression default_opts /\
     EndpointLabelMappingFn default_opts = Some raw_path) /\
  (forall l po,
     opts w !! l = Some po ->
     EndpointLabelMappingFn po = None ->
     PromMiddleware (Some l) w
     = PromMiddleware (Some l)
         (set_opts
            (<[l := set_EndpointLabelMappingFn (Some raw_path) po]> (opts w)) w)).
Proof.
  split; [|split].
  - rewrite PromMiddleware_nil.
    erewrite M_bind_Ok by reflexivity.
    rewrite (PromMiddleware_with_fn _ _ _ default_opts raw_path);
      [reflexivity| |reflexivity].
    cbn [opts set_opts]. by rewrite lookup_insert_eq.
  - eexists _, _. split; [apply PromMiddleware_nil|].
    cbn [opts set_opts]. by rewrite lookup_insert_eq.
  - intros l po Hpo Hfn.
    rewrite (PromMiddleware_no_fn _ _ l po w Hpo Hfn).
    rewrite (PromMiddleware_with_fn _ _ l
               (set_EndpointLabelMappingFn (Some raw_path) po) raw_path);
      [reflexivity|cbn [opts set_opts]; by rewrite lookup_insert_eq|reflexivity].
Qed.

End Claims.

(* ===================================================================== *)
(** ** The properties at sample inputs *)
(* ===================================================================== *)

Lemma served_completes (status size : Z) :
  completes 1 (Sample.respond status size) Sample.c0 Sample.served
    (Sample.ctx Sample.get_index status size) (Sample.downstream Sample.served)
    default_opts "/index" Sample.get_index.
Proof. split; [reflexivity|reflexivity|by exists raw_path|reflexivity]. Defined.

Lemma guarded_completes (status size : Z) :
  completes 1 (Sample.respond status size) Sample.c0 Sample.guarded
    (Sample.ctx Sample.get_index status size) (Sample.downstream Sample.guarded)
    (set_EndpointLabelMappingFn (Some raw_path) Sample.no_40x)
    "/index" Sample.get_index.
Proof. split; [reflexivity|reflexivity|by exists raw_path|reflexivity]. Defined.

Lemma records_exactly_once_witness :
  let lvs := ["200"; "/index"; "GET"]%string in
  let w1 := Sample.downstream Sample.served in
  completes 1 (Sample.respond 200 17) Sample.c0 Sample.served Sample.c200 w1
    default_opts "/index" Sample.get_index /\
  no_suppression default_opts /\
  utf8_ValidString "/index" = true /\
  utf8_ValidString (Method Sample.get_index) = true /\
  URL Sample.get_index = Some Sample.index_url /\
  exists w2 req,
    handler Sample.MatchString Sample.URL_String 1 (Sample.respond 200 17)
      Sample.c0 Sample.served = (Ok Sample.c200, w2) /\
    calcRequestSize Sample.URL_String (Request Sample.c200) = Ok req /\
    incremented_once reqCount_vec (registry w1) (registry w2) lvs /\
    observed_once reqDuration_vec (registry w1) (registry w2) lvs
      (elapsed Sample.served w1) /\
    observed_once reqSizeBytes_vec (registry w1) (registry w2) lvs req /\
    observed_once respSizeBytes_vec (registry w1) (registry w2) lvs
      (response_size Sample.c200) /\
    uptime (registry w2) = uptime (registry w1).
Proof.
  split; [exact (served_completes 200 17)|].
  split; [exact (conj eq_refl (conj eq_refl eq_refl))|].
  split; [reflexivity|]. split; [reflexivity|]. split; [reflexivity|].
  exact (records_exactly_once Sample.MatchString Sample.URL_String
           1 (Sample.respond 200 17) Sample.c0 Sample.served Sample.c200
           (Sample.downstream Sample.served) default_opts "/index"
           Sample.get_index Sample.index_url
           (served_completes 200 17)
           (conj eq_refl (conj eq_refl eq_refl)) eq_refl eq_refl eq_refl).
Defined.

(** C1 as stated fails: [GET /%ff] completes downstream with no
    suppression configured, its endpoint label is not valid UTF-8, and
    the handler panics at the first [WithLabelValues] in the state the
    chain left: nothing is counted or observed. *)
Lemma invalid_UTF8_path_not_recorded :
  completes 1 (Sample.respond 404 18) Sample.c_bad Sample.served
    Sample.c_bad_404 (Sample.downstream Sample.served) default_opts
    Sample.bad_path Sample.get_bad /\
  no_suppression default_opts /\
  URL Sample.get_bad = Some Sample.bad_url /\
  utf8_ValidString Sample.bad_path = false /\
  handler Sample.MatchString Sample.URL_String 1 (Sample.respond 404 18)
    Sample.c_bad Sample.served
  = (Panic invalid_label_value, Sample.downstream Sample.served) /\
  registry (Sample.downstream Sample.served) = registry Sample.served.
Proof.
  split; [|repeat split; reflexivity].
  split; [reflexivity|reflexivity|by exists raw_path|reflexivity].
Qed.

Lemma status_403_suppressed :
  suppresses Sample.MatchString
    (ExcludeRegexStatus (set_EndpointLabelMappingFn (Some raw_path) Sample.no_40x))
    (Itoa (Status (Writer Sample.c403))).
Proof. split; [discriminate|reflexivity]. Defined.

Lemma suppressed_updates_nothing_witness :
  let po := set_EndpointLabelMappingFn (Some raw_path) Sample.no_40x in
  let w1 := Sample.downstream Sample.guarded in
  completes 1 (Sample.respond 403 23) Sample.c0 Sample.guarded Sample.c403 w1
    po "/index" Sample.get_index /\
  suppresses Sample.MatchString (ExcludeRegexStatus po) "403" /\
  exists w2,
    handler Sample.MatchString Sample.URL_String 1 (Sample.respond 403 23)
      Sample.c0 Sample.guarded = (Ok Sample.c403, w2) /\
    w2 = w1 /\
    reqCount (registry w2) = reqCount (registry w1) /\
    reqDuration (registry w2) = reqDuration (registry w1) /\
    reqSizeBytes (registry w2) = reqSizeBytes (registry w1) /\
    respSizeBytes (registry w2) = respSizeBytes (registry w1).
Proof.
  split; [exact (guarded_completes 403 23)|].
  split; [exact status_403_suppressed|].
  exact (suppressed_updates_nothing Sample.MatchString Sample.URL_String
           1 (Sample.respond 403 23) Sample.c0 Sample.guarded Sample.c403
           (Sample.downstream Sample.guarded)
           (set_EndpointLabelMappingFn (Some raw_path) Sample.no_40x)
           "/index" Sample.get_index
           (guarded_completes 403 23) (or_introl status_403_suppressed)).
Defined.

Lemma paren_fails_to_compile :
  fails_to_compile Sample.MatchString "(" "200".
Proof. discriminate. Defined.

Lemma checkLabel_fails_open_witness :
  fails_to_compile Sample.MatchString "(" "200" /\
  checkLabel Sample.MatchString Sample.broken "200" "(" = true /\
  checkLabel Sample.MatchString Sample.broken "200" "("
  = checkLabel Sample.MatchString Sample.broken "200" "".
Proof.
  split; [exact paren_fails_to_compile|].
  exact (checkLabel_fails_open Sample.MatchString Sample.broken "200" "("
           (or_intror paren_fails_to_compile)).
Defined.

Lemma get_index_fits : request_bytes Sample.get_index <= Int64.max_int.
Proof. by vm_compute. Defined.

Lemma calcRequestSize_nonneg_witness :
  URL Sample.get_index = Some Sample.index_url /\
  -1 <= ContentLength Sample.get_index /\
  request_bytes Sample.get_index <= Int64.max_int /\
  exists size,
    calcRequestSize Sample.URL_String (Some Sample.get_index)
    = Ok (Float64.of_int size) /\
    0 <= size /\
    Float64.nonneg (Float64.of_int size) /\
    calcRequestSize Sample.URL_String
      (Some (set_ContentLength (-1) Sample.get_index))
    = calcRequestSize Sample.URL_String
        (Some (set_ContentLength 0 Sample.get_index)).
Proof.
  split; [reflexivity|]. split; [by vm_compute|].
  split; [exact get_index_fits|].
  exact (calcRequestSize_nonneg Sample.URL_String Sample.get_index
           Sample.index_url eq_refl ltac:(by vm_compute) get_index_fits).
Defined.

(** C4 as stated fails: a content length below the sentinel is added as
    it is, and the size returned for [below_sentinel] is [-2]. *)
Lemma calcRequestSize_below_sentinel :
  exists x,
    calcRequestSize Sample.URL_String (Some Sample.below_sentinel) = Ok x /\
    x = Float64.of_int (-2) /\
    Float64.ltb x Float64.zero = true /\
    Float64.leb Float64.zero x = false.
Proof. eexists. repeat split; reflexivity. Qed.

Lemma URL_length_not_counted_witness :
  let other := {| Scheme := "https"; Path := "/a/much/longer/path";
                  RawQuery := "q=1" |} in
  URL Sample.get_index = Some Sample.index_url /\
  calcRequestSize Sample.URL_String (Some Sample.get_index)
  = Ok (Float64.of_int (Int64.wrap64 (request_bytes Sample.get_index))) /\
  calcRequestSize Sample.URL_String (Some (set_URL (Some other) Sample.get_index))
  = calcRequestSize Sample.URL_String (Some Sample.get_index) /\
  calcRequestSize Sample.URL_String (Some (set_URL None Sample.get_index))
  = Panic nil_dereference.
Proof.
  split; [reflexivity|].
  exact (URL_length_not_counted Sample.URL_String Sample.get_index
           Sample.index_url
           {| Scheme := "https"; Path := "/a/much/longer/path";
              RawQuery := "q=1" |} eq_refl).
Defined.

Lemma URL_never_read_witness :
  URL Sample.get_index = Some Sample.index_url /\
  is_Ok (calcRequestSize Sample.URL_String (Some Sample.get_index)) /\
  calcRequestSize Sample.URL_String (Some Sample.get_index)
  = calcRequestSize (fun _ => "unused"%string)
      (Some (set_URL (Some Sample.bad_url) Sample.get_index)).
Proof.
  split; [reflexivity|].
  exact (URL_never_read Sample.URL_String (fun _ => "unused"%string)
           Sample.get_index Sample.index_url Sample.bad_url eq_refl).
Defined.

Lemma response_size_never_negative_witness :
  let lvs := ["204"; "/index"; "GET"]%string in
  let w1 := Sample.downstream Sample.served in
  completes 1 (Sample.respond 204 (-1)) Sample.c0 Sample.served Sample.c204 w1
    default_opts "/index" Sample.get_index /\
  passes Sample.MatchString default_opts "204" "/index" "GET" = true /\
  utf8_ValidString "/index" = true /\
  utf8_ValidString (Method Sample.get_index) = true /\
  Size (Writer Sample.c204) <= 0 /\
  exists w2 resp,
    handler Sample.MatchString Sample.URL_String 1 (Sample.respond 204 (-1))
      Sample.c0 Sample.served = (Ok Sample.c204, w2) /\
    observed_once respSizeBytes_vec (registry w1) (registry w2) lvs resp /\
    Float64.nonneg resp /\
    (Size (Writer Sample.c204) <= 0 -> resp = Float64.zero).
Proof.
  split; [exact (served_completes 204 (-1))|].
  split; [reflexivity|]. split; [reflexivity|]. split; [reflexivity|].
  split; [by vm_compute|].
  exact (response_size_never_negative Sample.MatchString Sample.URL_String
           1 (Sample.respond 204 (-1)) Sample.c0 Sample.served Sample.c204
           (Sample.downstream Sample.served) default_opts "/index"
           Sample.get_index Sample.index_url
           (served_completes 204 (-1)) eq_refl eq_refl eq_refl eq_refl).
Defined.


Lemma events_keep_uptime : Forall downstream_keeps_uptime Sample.events.
Proof. repeat constructor. Defined.

Lemma uptime_counts_ticks_witness :
  Forall downstream_keeps_uptime Sample.events /\
  count uptime_vec
    (registry (run Sample.MatchString Sample.URL_String Sample.events
                 Sample.served)) []
  = (count uptime_vec (registry Sample.served) [] + N.of_nat (ticks_in Sample.events))%N /\
  (forall t,
     count uptime_vec
       (registry (run Sample.MatchString Sample.URL_String
                    (Sample.events ++ [Tick t]) Sample.served)) []
     = (count uptime_vec
          (registry (run Sample.MatchString Sample.URL_String Sample.events
                       Sample.served)) [] + 1)%N) /\
  (forall ticks,
     exists w',
       recordUpTime ticks Sample.served = (Ok tt, w') /\
       count uptime_vec (registry w') []
       = (count uptime_vec (registry Sample.served) []
          + N.of_nat (length ticks))%N).
Proof.
  split; [exact events_keep_uptime|].
  exact (uptime_counts_ticks Sample.MatchString Sample.URL_String
           Sample.events Sample.served events_keep_uptime).
Defined.

Lemma nil_options_are_default_options_witness :
  opts Sample.configured !! 1%positive = Some Sample.no_40x /\
  EndpointLabelMappingFn Sample.no_40x = None /\
  PromMiddleware Sample.MatchString Sample.URL_String (Some 1%positive)
    Sample.configured
  = PromMiddleware Sample.MatchString Sample.URL_String (Some 1%positive)
      (set_opts
         (<[1%positive := set_EndpointLabelMappingFn (Some raw_path) Sample.no_40x]>
            (opts Sample.configured)) Sample.configured).
Proof.
  split; [reflexivity|]. split; [reflexivity|].
  exact (proj2 (proj2 (nil_options_are_default_options Sample.MatchString
                         Sample.URL_String Sample.configured))
           1%positive Sample.no_40x eq_refl eq_refl).
Defined.

(* ===================================================================== *)
(** ** The scenarios of the design document, evaluated *)
(* ===================================================================== *)

(** [strconv.Itoa] on the status codes of the demo application. *)
Example Itoa_statuses :
  map Itoa [200; 400; 403; 0; -1] = ["200"; "400"; "403"; "0"; "-1"]%string.
Proof. reflexivity. Qed.

(** The size of [GET /index]: 3 + 8 + (6 + 3) + 14 + 0 bytes; neither the
    path nor the rest of the URL is counted. *)
Example calcRequestSize_get_index :
  calcRequestSize Sample.URL_String (Some Sample.get_index)
  = Ok (Float64.of_int 34).
Proof. reflexivity. Qed.

(** An addition that leaves the range of [int] wraps around: with the
    largest content length and the method [GET] the size is negative. *)
Example calcRequestSize_wraps :
  calcRequestSize Sample.URL_String
    (Some (set_ContentLength Int64.max_int Sample.below_sentinel))
  = Ok (Float64.of_int Int64.max_int) /\
  calcRequestSize Sample.URL_String
    (Some (set_ContentLength Int64.max_int Sample.get_index))
  = Ok (Float64.of_int (Int64.min_int + 33)).
Proof. split; reflexivity. Qed.

(** Scenario 1: one [GET /index] through [PromMiddleware(nil)] in a fresh
    process leaves the count series with the single child
    [status=200, endpoint=/index, method=GET] at 1; a second one makes
    it 2. *)
Example scenario_index_once :
  let m :=
    let! h := PromMiddleware Sample.MatchString Sample.URL_String None in
    h (Sample.respond 200 17) Sample.c0 in
  map_to_list (reqCount (registry (m Sample.boot).2))
  = [(["200"; "/index"; "GET"]%string, 1%N)] /\
  map_to_list (reqCount (registry ((let! _ := m in m) Sample.boot).2))
  = [(["200"; "/index"; "GET"]%string, 2%N)].
Proof. split; reflexivity. Qed.

(** Scenario 3, with a pattern of the sample matcher: when statuses
    containing [40] are excluded, a 403 leaves the registry empty. *)
Example scenario_status_excluded :
  let m :=
    let! l := new_opts Sample.no_40x in
    let! h := PromMiddleware Sample.MatchString Sample.URL_String (Some l) in
    h (Sample.respond 403 23) Sample.c0 in
  registry (m Sample.boot).2 = empty_registry.
Proof. reflexivity. Qed.

(** A request built by hand without URL, served with a mapping function
    that does not read the URL: the handler panics in [calcRequestSize],
    after the count and the duration were recorded and the request-size
    child was created. *)
Example handler_without_URL :
  let po := set_EndpointLabelMappingFn (Some (fun _ => Ok "/fixed"%string))
              default_opts in
  let m :=
    let! l := new_opts po in
    let! h := PromMiddleware Sample.MatchString Sample.URL_String (Some l) in
    h (Sample.respond 200 17) (Sample.ctx Sample.no_url 0 (-1)) in
  (m Sample.boot).1 = Panic nil_dereference /\
  map_to_list (reqCount (registry (m Sample.boot).2))
  = [(["200"; "/fixed"; "GET"]%string, 1%N)] /\
  map_to_list (reqSizeBytes (registry (m Sample.boot).2))
  = [(["200"; "/fixed"; "GET"]%string, [])] /\
  respSizeBytes (registry (m Sample.boot).2) = ∅.
Proof. repeat split; reflexivity. Qed.

(** Scenario 4: three ticks and no request leave the uptime counter
    at 3. *)
Example scenario_uptime :
  map_to_list (uptime (registry (recordUpTime [1; 2; 3] Sample.boot).2))
  = [([], 3%N)].
Proof. reflexivity. Qed.

(* ===================================================================== *)
(** ** Further properties: when the handler records *)
(* ===================================================================== *)

Section Recording.

Variable regexp_MatchString : string -> string -> bool * option string.
Variable URL_String : url_URL -> string.

Local Abbreviation checkLabel := (checkLabel regexp_MatchString).
Local Abbreviation handler := (handler regexp_MatchString URL_String).
Local Abbreviation passes := (passes regexp_MatchString).
Local Abbreviation suppresses := (suppresses regexp_MatchString).

(** Runs the handler through the derivation of the labels. *)
Ltac derive_labels HN Hpo Hfn Hep Hr :=
  erewrite M_bind_Ok by reflexivity;
  rewrite (M_bind_Ok _ _ _ _ _ HN);
  erewrite M_bind_Ok by (unfold load; rewrite Hpo; reflexivity);
  erewrite M_bind_Ok by (unfold lift; rewrite Hfn; reflexivity);
  erewrite M_bind_Ok by (unfold lift; rewrite Hep; reflexivity);
  erewrite M_bind_Ok by (unfold lift; rewrite Hr; reflexivity);
  erewrite M_bind_Ok by (unfold load; rewrite Hpo; reflexivity).

Lemma checkLabel_false (po : PromOpts) (label pattern : string) :
  checkLabel po label pattern = false <-> suppresses pattern label.
Proof.
  unfold checkLabel, suppresses. split.
  - case_bool_decide as Hp; [done|].
    destruct (regexp_MatchString pattern label) as [matched err].
    case_bool_decide as He; [done|].
    destruct err as [e|]; [discriminate He|].
    destruct matched; [done|discriminate].
  - intros [Hp Hm]. rewrite bool_decide_eq_false_2 by done. rewrite Hm.
    by rewrite bool_decide_eq_false_2 by (intros H; by apply H).
Qed.

Lemma passes_false (po : PromOpts) (status endpoint method : string) :
  passes po status endpoint method = false <->
  suppresses (ExcludeRegexStatus po) status \/
  suppresses (ExcludeRegexEndpoint po) endpoint \/
  suppresses (ExcludeRegexMethod po) method.
Proof.
  unfold passes. rewrite !andb_false_iff, !checkLabel_false. tauto.
Qed.

Lemma passes_true (po : PromOpts) (status endpoint method : string) :
  passes po status endpoint method = true <->
  ~ suppresses (ExcludeRegexStatus po) status /\
  ~ suppresses (ExcludeRegexEndpoint po) endpoint /\
  ~ suppresses (ExcludeRegexMethod po) method.
Proof.
  rewrite <- not_false_iff_true, passes_false. tauto.
Qed.

(** X1. [checkLabel] returns false exactly when the pattern is not empty,
    compiles, and matches the label; in every other case (empty pattern,
    pattern that does not compile, no match) it returns true. *)
Theorem checkLabel_false_iff_suppresses (po : PromOpts) (label pattern : string) :
  (checkLabel po label pattern = false <->
   pattern <> ""%string /\ regexp_MatchString pattern label = (true, None)) /\
  (checkLabel po label pattern = true <->
   pattern = ""%string \/
   (regexp_MatchString pattern label).2 <> None \/
   (regexp_MatchString pattern label).1 = false).
Proof.
  split; [apply checkLabel_false|].
  unfold checkLabel. case_bool_decide as Hp; [tauto|].
  destruct (regexp_MatchString pattern label) as [matched err]; simpl.
  case_bool_decide as He; [tauto|].
  destruct matched; simpl; split; try tauto; try done.
  intros [H|[H|H]]; done.
Qed.

(** X2. A completed request whose URL is present and whose endpoint and
    method labels are valid UTF-8 is recorded exactly when none of its
    three labels is matched by the pattern configured for it: if one is,
    the handler returns in the state the rest of the chain left; if none
    is (patterns that are empty, do not compile, or do not match), the
    registry is the one recorded for the labels, the options are
    untouched and the clock was read once more. *)
Theorem records_unless_suppressed promOpts Next c w c1 w1 po endpoint r u :
  completes promOpts Next c w c1 w1 po endpoint r ->
  utf8_ValidString endpoint = true ->
  utf8_ValidString (Method r) = true ->
  URL r = Some u ->
  let status := Itoa (Status (Writer c1)) in
  exists w2,
    handler promOpts Next c w = (Ok c1, w2) /\
    (((suppresses (ExcludeRegexStatus po) status \/
       suppresses (ExcludeRegexEndpoint po) endpoint \/
       suppresses (ExcludeRegexMethod po) (Method r)) /\
      w2 = w1) \/
     ((~ suppresses (ExcludeRegexStatus po) status /\
       ~ suppresses (ExcludeRegexEndpoint po) endpoint /\
       ~ suppresses (ExcludeRegexMethod po) (Method r)) /\
      registry w2
      = recorded [status; endpoint; Method r] (elapsed w w1)
          (Float64.of_int (Int64.wrap64 (request_bytes r)))
          (response_size c1) (registry w1) /\
      opts w2 = opts w1 /\
      reads w2 = S (reads w1))).
Proof.
  intros Hc Hve Hvm Hu status.
  destruct (passes po status endpoint (Method r)) eqn:Hok.
  - eexists. split; [by apply handler_recorded with po u|].
    right. split; [by apply passes_true|]. done.
  - exists w1. split; [by apply handler_suppressed with po endpoint r|].
    left. split; [by apply passes_false|done].
Qed.

(** X3. When the rest of the chain panics, the handler panics with the
    same message in the state the chain reached: it records nothing for
    that request. *)
Theorem downstream_panic_records_nothing promOpts Next c w msg w1 :
  Next c (set_reads (S (reads w)) w) = (Panic msg, w1) ->
  handler promOpts Next c w = (Panic msg, w1).
Proof.
  intros HN. unfold handler.
  erewrite M_bind_Ok by reflexivity.
  unfold M_bind at 1. by rewrite HN.
Qed.

(** X4. When the rest of the chain returns but the labels cannot be
    derived (the options hold no mapping function, the mapping function
    panics, or the context has no request), the handler panics in the
    state the chain left: no series is touched. *)
Theorem underivable_labels_record_nothing promOpts Next c w c1 w1 po :
  Next c (set_reads (S (reads w)) w) = (Ok c1, w1) ->
  opts w1 !! promOpts = Some po ->
  EndpointLabelMappingFn po = None \/
  (exists fn msg, EndpointLabelMappingFn po = Some fn /\ fn c1 = Panic msg) \/
  (exists fn endpoint,
     EndpointLabelMappingFn po = Some fn /\ fn c1 = Ok endpoint /\
     Request c1 = None) ->
  exists msg, handler promOpts Next c w = (Panic msg, w1).
Proof.
  intros HN Hpo Hcase. unfold handler.
  erewrite M_bind_Ok by reflexivity.
  rewrite (M_bind_Ok _ _ _ _ _ HN).
  erewrite M_bind_Ok by (unfold load; rewrite Hpo; reflexivity).
  destruct Hcase as [Hfn | [(fn & msg & Hfn & Hp) | (fn & ep & Hfn & Hep & Hr)]].
  - exists nil_dereference. unfold M_bind at 1, lift. by rewrite Hfn.
  - exists msg.
    erewrite M_bind_Ok by (unfold lift; rewrite Hfn; reflexivity).
    unfold M_bind at 1, lift. by rewrite Hp.
  - exists nil_dereference.
    erewrite M_bind_Ok by (unfold lift; rewrite Hfn; reflexivity).
    erewrite M_bind_Ok by (unfold lift; rewrite Hep; reflexivity).
    unfold M_bind at 1, lift. by rewrite Hr.
Qed.

(** X5. A completed request that passes the checks and has valid UTF-8
    labels but no URL (its endpoint comes from a mapping function that
    does not read the URL) is recorded in part: the count is incremented and the duration
    observed, the request-size child is created without observation, the
    response-size series is not touched, and the handler panics in
    [calcRequestSize]. *)
Theorem nil_URL_records_in_part promOpts Next c w c1 w1 po endpoint r :
  completes promOpts Next c w c1 w1 po endpoint r ->
  passes po (Itoa (Status (Writer c1))) endpoint (Method r) = true ->
  utf8_ValidString endpoint = true ->
  utf8_ValidString (Method r) = true ->
  URL r = None ->
  let lvs := [Itoa (Status (Writer c1)); endpoint; Method r] in
  exists w2,
    handler promOpts Next c w = (Panic nil_dereference, w2) /\
    incremented_once reqCount_vec (registry w1) (registry w2) lvs /\
    observed_once reqDuration_vec (registry w1) (registry w2) lvs (elapsed w w1) /\
    reqSizeBytes (registry w2) !! lvs
    = Some (samples reqSizeBytes_vec (registry w1) lvs) /\
    (forall k, k <> lvs ->
       reqSizeBytes (registry w2) !! k = reqSizeBytes (registry w1) !! k) /\
    respSizeBytes (registry w2) = respSizeBytes (registry w1) /\
    uptime (registry w2) = uptime (registry w1).
Proof.
  intros [HN Hpo (fn & Hfn & Hep) Hr] Hok Hve Hvm Hu lvs. unfold handler.
  derive_labels HN Hpo Hfn Hep Hr.
  unfold passes in Hok. rewrite Hok.
  change (negb true) with false. cbv iota. fold lvs.
  pose proof (labels_valid (Status (Writer c1)) _ _ Hve Hvm) as Hvalid.
  fold lvs in Hvalid.
  erewrite M_bind_Ok by run_WithLabelValues.
  erewrite M_bind_Ok by reflexivity.
  erewrite M_bind_Ok by run_WithLabelValues.
  erewrite M_bind_Ok by reflexivity.
  erewrite M_bind_Ok by reflexivity.
  erewrite M_bind_Ok by run_WithLabelValues.
  unfold M_bind at 1, lift.
  rewrite Hr, (calcRequestSize_absent _ _ Hu).
  eexists. split; [reflexivity|].
  unfold time_Since, time_Now, M_bind, M_ret.
  cbn [registry opts timeline reads set_registry set_reads
       children set_children newMetric
       reqCount_vec reqDuration_vec reqSizeBytes_vec respSizeBytes_vec
       set_reqCount set_reqDuration set_reqSizeBytes set_respSizeBytes
       uptime reqCount reqDuration reqSizeBytes respSizeBytes].
  rewrite !alter_child_or_new.
  unfold incremented_once, observed_once, count, samples, child_or_new.
  cbn [children reqCount_vec reqDuration_vec reqSizeBytes_vec].
  unfold set_reqCount, set_reqDuration, set_reqSizeBytes.
  cbn [uptime reqCount reqDuration reqSizeBytes respSizeBytes].
  repeat split.
  - by rewrite lookup_insert_eq, N.add_1_r.
  - intros k Hk. by rewrite lookup_insert_ne.
  - by rewrite lookup_insert_eq.
  - intros k Hk. by rewrite lookup_insert_ne.
  - destruct (reqSizeBytes (registry w1) !! lvs) eqn:Hl; simpl.
    + by rewrite Hl.
    + by rewrite lookup_insert_eq.
  - intros k Hk. destruct (reqSizeBytes (registry w1) !! lvs); [done|].
    by rewrite lookup_insert_ne.
Qed.

End Recording.

(* ===================================================================== *)
(** ** Further properties: what the handler and the ticker never do *)
(* ===================================================================== *)

Lemma counts_le_refl (m : gmap (list string) N) : counts_le m m.
Proof. intros k n Hk. exists n. split; [done|lia]. Qed.

Lemma counts_le_trans (m1 m2 m3 : gmap (list string) N) :
  counts_le m1 m2 -> counts_le m2 m3 -> counts_le m1 m3.
Proof.
  intros H12 H23 k n Hk.
  destruct (H12 k n Hk) as (n2 & Hk2 & Hle2).
  destruct (H23 k n2 Hk2) as (n3 & Hk3 & Hle3).
  exists n3. split; [done|lia].
Qed.

Lemma counts_le_insert_new (m : gmap (list string) N) (k : list string) (x : N) :
  m !! k = None -> counts_le m (<[k := x]> m).
Proof.
  intros Hnew k' n Hk'. exists n. split; [|lia].
  rewrite lookup_insert_ne; [done|]. intros ->. congruence.
Qed.

Lemma counts_le_alter_succ (m : gmap (list string) N) (k : list string) :
  counts_le m (alter N.succ k m).
Proof.
  intros k' n Hk'. destruct (decide (k = k')) as [<-|Hne].
  - exists (N.succ n). rewrite lookup_alter_eq, Hk'. split; [done|lia].
  - exists n. rewrite lookup_alter_ne by done. split; [done|lia].
Qed.

Lemma samples_le_refl (m : gmap (list string) (list float64)) : samples_le m m.
Proof. intros k xs Hk. by exists xs. Qed.

Lemma samples_le_trans (m1 m2 m3 : gmap (list string) (list float64)) :
  samples_le m1 m2 -> samples_le m2 m3 -> samples_le m1 m3.
Proof.
  intros H12 H23 k xs Hk.
  destruct (H12 k xs Hk) as (xs2 & Hk2 & Hle2).
  destruct (H23 k xs2 Hk2) as (xs3 & Hk3 & Hle3).
  exists xs3. split; [done|]. by etrans.
Qed.

Lemma samples_le_insert_new (m : gmap (list string) (list float64))
    (k : list string) (xs : list float64) :
  m !! k = None -> samples_le m (<[k := xs]> m).
Proof.
  intros Hnew k' ys Hk'. exists ys. split; [|done].
  rewrite lookup_insert_ne; [done|]. intros ->. congruence.
Qed.

Lemma samples_le_alter_app (m : gmap (list string) (list float64))
    (k : list string) (x : float64) :
  samples_le m (alter (fun xs => xs ++ [x]) k m).
Proof.
  intros k' ys Hk'. destruct (decide (k = k')) as [<-|Hne].
  - exists (ys ++ [x]). rewrite lookup_alter_eq, Hk'.
    split; [done|]. by apply prefix_app_r.
  - exists ys. by rewrite lookup_alter_ne.
Qed.

Lemma registry_le_refl (r : Registry) : registry_le r r.
Proof.
  repeat split; first [apply counts_le_refl | apply samples_le_refl].
Qed.

Lemma registry_le_trans (r1 r2 r3 : Registry) :
  registry_le r1 r2 -> registry_le r2 r3 -> registry_le r1 r3.
Proof.
  intros (A1 & B1 & C1 & D1 & E1) (A2 & B2 & C2 & D2 & E2).
  repeat split; first [by eapply counts_le_trans | by eapply samples_le_trans].
Qed.

(** Closes [registry_le r r'] when [r'] is [r] with one series created,
    incremented or extended. *)
Ltac one_series_grew :=
  intros; unfold registry_le; simpl;
  repeat split;
  first [ apply counts_le_refl | apply samples_le_refl
        | by apply counts_le_insert_new | apply counts_le_alter_succ
        | by apply samples_le_insert_new | apply samples_le_alter_app ].

Lemma grows_bind {A B : Type} (m : M A) (k : A -> M B) :
  grows m -> (forall a, grows (k a)) -> grows (M_bind m k).
Proof.
  intros Hm Hk w. unfold M_bind. specialize (Hm w).
  destruct (m w) as [[a|msg] w']; simpl in *; [|done].
  eapply registry_le_trans; [exact Hm|apply Hk].
Qed.

Lemma grows_pure {A : Type} (m : M A) :
  (forall w, registry (m w).2 = registry w) -> grows m.
Proof. intros H w. rewrite H. apply registry_le_refl. Qed.

Lemma grows_WithLabelValues {S : Type} (v : MetricVec S) (lvs : list string) :
  (forall r, children v r !! lvs = None ->
     registry_le r (set_children v (<[lvs := newMetric v]> (children v r)) r)) ->
  grows (WithLabelValues v lvs).
Proof.
  intros Hv w. unfold WithLabelValues.
  case_bool_decide; [|apply registry_le_refl].
  destruct (forallb _ lvs); [|apply registry_le_refl].
  destruct (children v (registry w) !! lvs) eqn:Hl; [apply registry_le_refl|].
  simpl. by apply Hv.
Qed.

Lemma grows_Inc (v : MetricVec N) (child : list string) :
  (forall r, registry_le r
     (set_children v (alter N.succ child (children v r)) r)) ->
  grows (Inc v child).
Proof. intros Hv w. simpl. apply Hv. Qed.

Lemma grows_Observe (v : MetricVec (list float64)) (child : list string)
    (x : float64) :
  (forall r, registry_le r
     (set_children v (alter (fun xs => xs ++ [x]) child (children v r)) r)) ->
  grows (Observe v child x).
Proof. intros Hv w. simpl. apply Hv. Qed.



Section Frames.

Variable regexp_MatchString : string -> string -> bool * option string.
Variable URL_String : url_URL -> string.

Local Abbreviation handler := (handler regexp_MatchString URL_String).
Local Abbreviation PromMiddleware :=
  (PromMiddleware regexp_MatchString URL_String).
Local Abbreviation run := (run regexp_MatchString URL_String).
Local Abbreviation step := (step regexp_MatchString URL_String).

Lemma handler_grows (promOpts : positive)
    (Next : gin_Context -> M gin_Context) (c : gin_Context) :
  (forall c', grows (Next c')) -> grows (handler promOpts Next c).
Proof.
  intros HN. unfold handler.
  repeat first
    [ apply grows_bind; [|intros ?]
    | apply HN
    | apply grows_WithLabelValues; one_series_grew
    | apply grows_Inc; one_series_grew
    | apply grows_Observe; one_series_grew
    | apply grows_pure; reflexivity
    | match goal with |- grows (if ?b then _ else _) => destruct b end ].
Qed.

Lemma recordUpTime_grows (ticks : list Z) : grows (recordUpTime ticks).
Proof.
  induction ticks as [|t ticks IH]; [apply grows_pure; reflexivity|].
  cbn [recordUpTime].
  repeat first
    [ apply grows_bind; [|intros ?]
    | exact IH
    | apply grows_WithLabelValues; one_series_grew
    | apply grows_Inc; one_series_grew ].
Qed.

(** X6. Whatever ticks are received and requests are served, and however
    they end (returning or panicking), the registry only grows: no child
    of any series is removed, no counter decreases, and the values a
    histogram or summary child has observed are kept, in order, before
    the new ones.  The rest of each chain is assumed to do the same. *)
Theorem registry_only_grows (es : list Event) (w : World) :
  Forall downstream_grows es ->
  registry_le (registry w) (registry (run es w)).
Proof.
  intros Hes. revert w. induction Hes as [|e es He Hes IH]; intros w.
  - apply registry_le_refl.
  - change (run (e :: es) w) with (run es (step e w)).
    eapply registry_le_trans; [|apply IH].
    destruct e as [t|promOpts Next c]; unfold step.
    + apply recordUpTime_grows.
    + by apply handler_grows.
Qed.


End Frames.

(** X8. [recordUpTime] returns after the ticks it was given having
    changed nothing but the one child of the uptime counter, the child
    without label values: no tick leaves the state as it is (the child is
    not created before the first tick), and [n > 0] ticks set the child
    to its former value plus [n].  The request series, the options and
    the clock are untouched. *)
Theorem recordUpTime_touches_only_uptime (ticks : list Z) (w : World) :
  recordUpTime ticks w
  = (Ok tt,
     match ticks with
     | [] => w
     | _ :: _ =>
         set_registry
           (set_uptime
              (<[[] := (count uptime_vec (registry w) []
                        + N.of_nat (length ticks))%N]>
                 (uptime (registry w)))
              (registry w)) w
     end).
Proof.
  revert w. induction ticks as [|t ticks IH]; intros w; [done|].
  rewrite recordUpTime_cons, IH. f_equal.
  destruct ticks as [|t' ticks].
  - do 3 f_equal. generalize (count uptime_vec (registry w) []).
    intros n. simpl. lia.
  - unfold set_registry, set_uptime, count.
    cbn [registry opts timeline reads uptime reqCount reqDuration
         reqSizeBytes respSizeBytes children uptime_vec].
    rewrite lookup_insert_eq, insert_insert_eq. cbn [default].
    do 3 f_equal. generalize (default 0%N (uptime (registry w) !! [])).
    intros n. simpl length. generalize (length ticks). intros k.
    unfold id. lia.
Qed.

Section Construction.

Variable regexp_MatchString : string -> string -> bool * option string.
Variable URL_String : url_URL -> string.

Local Abbreviation handler := (handler regexp_MatchString URL_String).
Local Abbreviation PromMiddleware :=
  (PromMiddleware regexp_MatchString URL_String).

(** X9. Given nil or a pointer to existing options, [PromMiddleware]
    returns a handler without panicking and without touching the registry
    or the clock.  Every options value that existed still exists with the
    same three patterns, and is unchanged unless it is the one given and
    its mapping function was nil; the options the handler captured have a
    mapping function.  For nil the captured options are new: they are
    the default options, at an address that held nothing. *)
Theorem PromMiddleware_fills_only_the_mapping (promOpts : option positive)
    (w : World) :
  match promOpts with
  | None => True
  | Some l => is_Some (opts w !! l)
  end ->
  exists l w',
    PromMiddleware promOpts w = (Ok (handler l), w') /\
    registry w' = registry w /\
    timeline w' = timeline w /\
    reads w' = reads w /\
    (forall l' po,
       opts w !! l' = Some po ->
       exists po',
         opts w' !! l' = Some po' /\
         same_patterns po po' /\
         (is_Some (EndpointLabelMappingFn po) \/ l' <> l -> po' = po)) /\
    (exists po',
       opts w' !! l = Some po' /\ is_Some (EndpointLabelMappingFn po')) /\
    match promOpts with
    | None => opts w !! l = None /\ opts w' !! l = Some default_opts
    | Some l0 => l = l0
    end.
Proof.
  destruct promOpts as [l|]; intros Hl.
  - destruct Hl as [po Hpo].
    destruct (EndpointLabelMappingFn po) as [fn|] eqn:Hfn.
    + exists l, w. rewrite (PromMiddleware_with_fn _ _ l po fn w Hpo Hfn).
      repeat split; [|by exists po; rewrite Hfn].
      intros l' po' Hpo'. exists po'. by repeat split.
    + eexists l, _. rewrite (PromMiddleware_no_fn _ _ l po w Hpo Hfn).
      repeat split; cbn [opts set_opts].
      * intros l' po' Hpo'. destruct (decide (l = l')) as [<-|Hne].
        -- rewrite lookup_insert_eq. eexists. split; [done|].
           assert (po' = po) as -> by congruence.
           split; [done|]. intros [[fn Hfn']|Hne]; [congruence|done].
        -- rewrite lookup_insert_ne by done. exists po'. by repeat split.
      * rewrite lookup_insert_eq. by eexists.
  - eexists _, _. rewrite PromMiddleware_nil.
    pose proof (is_fresh (dom (opts w))) as Hfresh.
    apply not_elem_of_dom in Hfresh.
    repeat split; cbn [opts set_opts]; [|by rewrite lookup_insert_eq; eexists
                                         |done|by rewrite lookup_insert_eq].
    intros l' po' Hpo'. exists po'.
    rewrite lookup_insert_ne by congruence. by repeat split.
Qed.

(** X10. Building a second middleware from options a middleware was
    already built from changes nothing further: the second call returns
    the same handler and leaves the state the first call left. *)
Theorem PromMiddleware_twice (l : positive) (w : World) :
  is_Some (opts w !! l) ->
  exists h w',
    PromMiddleware (Some l) w = (Ok h, w') /\
    PromMiddleware (Some l) w' = (Ok h, w').
Proof.
  intros [po Hpo].
  destruct (EndpointLabelMappingFn po) as [fn|] eqn:Hfn.
  - exists (handler l), w.
    by rewrite (PromMiddleware_with_fn _ _ l po fn w Hpo Hfn).
  - eexists (handler l), _.
    rewrite (PromMiddleware_no_fn _ _ l po w Hpo Hfn). split; [done|].
    apply PromMiddleware_with_fn
      with (set_EndpointLabelMappingFn (Some raw_path) po) raw_path;
      [|done].
    cbn [opts set_opts]. by rewrite lookup_insert_eq.
Qed.

End Construction.

(* ===================================================================== *)
(** ** Further properties: the request size *)
(* ===================================================================== *)

Lemma size_before_header_in_range (r : http_Request) :
  Int64.in_range (size_before_header r).
Proof. apply wrap64_in_range. Qed.

(** X11. The order in which the loop visits the header does not matter:
    whatever order [range] picks for the entries of [r.Header], the size
    after the loop is the size computed in the order of the embedding. *)
Theorem header_order_irrelevant (r : http_Request)
    (entries : list (string * list string)) :
  entries ≡ₚ map_to_list (Header r) ->
  range_Header (size_before_header r) entries
  = range_Header (size_before_header r) (map_to_list (Header r)).
Proof.
  intros Hp. apply range_Header_Permutation; [|done].
  apply size_before_header_in_range.
Qed.

Lemma header_bytes_insert (h : gmap string (list string)) (name : string)
    (values : list string) :
  h !! name = None ->
  header_bytes (map_to_list (<[name := values]> h))
  = len name + values_bytes values + header_bytes (map_to_list h).
Proof.
  intros Hnew.
  by rewrite (header_bytes_Permutation _ _ (map_to_list_insert h name values Hnew)).
Qed.

(** X12. Adding a header under a name the request does not have adds the
    bytes of the name, once, and of each of its values to the size (on
    64-bit integers: the sum wraps around). *)
Theorem header_entry_adds_its_bytes (URL_String : url_URL -> string)
    (r : http_Request) (u : url_URL) (name : string) (values : list string) :
  URL r = Some u ->
  Header r !! name = None ->
  calcRequestSize URL_String (Some (set_Header (<[name := values]> (Header r)) r))
  = Ok (Float64.of_int
          (Int64.wrap64 (request_bytes r + len name + values_bytes values))).
Proof.
  intros Hu Hnew.
  rewrite (calcRequestSize_present _ _ u) by done. do 3 f_equal.
  unfold request_bytes. cbn [Header Method Proto Host ContentLength set_Header].
  rewrite header_bytes_insert by done. lia.
Qed.

(* ===================================================================== *)
(** ** Further properties: the observed duration *)
(* ===================================================================== *)

Lemma nonneg_class_nonneg (x : float64) :
  float64_nonneg_class x -> Float64.nonneg x.
Proof. by intros [-> | [-> | (m & e & ->)]]. Qed.

Lemma of_int_nonneg_class (n : Z) :
  0 <= n -> float64_nonneg_class (Float64.of_int n).
Proof.
  intros Hn. unfold Float64.of_int. destruct n as [|p|p]; [by left| |lia].
  apply binary_round_sign.
Qed.

Lemma SFdiv_core_binary_nonneg (prec emax : Z) (m1 m2 : positive) (e1 e2 : Z) :
  0 <= (SFdiv_core_binary prec emax (Zpos m1) e1 (Zpos m2) e2).1.1.
Proof.
  unfold SFdiv_core_binary.
  set (s := _ - _ - Z.min _ _).
  set (m' := match s with Z0 => _ | Zpos _ => _ | Zneg _ => _ end).
  assert (Hm' : 0 <= m').
  { unfold m'. destruct s; [lia| |lia]. apply Z.shiftl_nonneg. lia. }
  destruct (Z.div_eucl m' (Z.pos m2)) as [q rm] eqn:E. simpl.
  assert (q = m' / Z.pos m2) as -> by (unfold Z.div; by rewrite E).
  apply Z.div_pos; lia.
Qed.

Lemma div_nonneg_class (x : float64) (my : positive) (ey : Z) :
  float64_nonneg_class x ->
  float64_nonneg_class (Float64.div x (S754_finite false my ey)).
Proof.
  intros [-> | [-> | (mx & ex & ->)]]; [by left|by right; left|].
  unfold Float64.div, SFdiv.
  pose proof (SFdiv_core_binary_nonneg Float64.prec Float64.emax mx my ex ey)
    as Hq.
  destruct (SFdiv_core_binary _ _ _ _ _ _) as [[mz ez] lz]; simpl in Hq.
  by apply binary_round_aux_sign.
Qed.

Lemma add_nonneg_class (x y : float64) :
  float64_nonneg_class x -> float64_nonneg_class y ->
  float64_nonneg_class (Float64.add x y).
Proof.
  intros [-> | [-> | (mx & ex & ->)]] [-> | [-> | (my & ey & ->)]];
    try (by left); try (by right; left); try (by right; right; eexists _, _).
  unfold Float64.add, SFadd. cbn [cond_Zopp Z.add].
  apply binary_round_sign.
Qed.

Lemma Seconds_nonneg_class (d : Z) : 0 <= d -> float64_nonneg_class (Seconds d).
Proof.
  intros Hd. unfold Seconds. apply add_nonneg_class.
  - apply of_int_nonneg_class. apply Z.quot_pos; [done|by vm_compute].
  - change (Float64.of_int 1000000000)
      with (S754_finite false 8388608000000000 (-23)).
    apply div_nonneg_class, of_int_nonneg_class.
    apply Z.rem_nonneg; [by vm_compute|done].
Qed.

Lemma time_Sub_nonneg (t u : Z) :
  Int64.in_range t -> Int64.in_range u -> u <= t -> 0 <= time_Sub t u.
Proof.
  unfold Int64.in_range, Int64.min_int, Int64.max_int. intros Ht Hu Hle.
  unfold time_Sub.
  destruct (Z.ltb_spec (Int64.sub t u) 0) as [Hneg|Hpos]; simpl.
  - destruct (Z.gtb_spec t u); [unfold Int64.max_int; lia|].
    assert (t = u) as -> by lia.
    unfold Int64.sub in Hneg. rewrite Z.sub_diag in Hneg.
    by vm_compute in Hneg.
  - destruct (Z.gtb_spec (Int64.sub t u) 0); simpl; [|lia].
    destruct (Z.ltb_spec t u); [lia|lia].
Qed.

Section Duration.

Variable regexp_MatchString : string -> string -> bool * option string.
Variable URL_String : url_URL -> string.

Local Abbreviation handler := (handler regexp_MatchString URL_String).
Local Abbreviation passes := (passes regexp_MatchString).

(** X13. For a request that is recorded (it completes, passes the
    checks, and its labels are valid UTF-8), the value observed on the
    duration series is not negative, provided the two readings of the
    monotonic clock are [int64] values and the second is not before the
    first. *)
Theorem duration_never_negative promOpts Next c w c1 w1 po endpoint r u :
  completes promOpts Next c w c1 w1 po endpoint r ->
  passes po (Itoa (Status (Writer c1))) endpoint (Method r) = true ->
  utf8_ValidString endpoint = true ->
  utf8_ValidString (Method r) = true ->
  URL r = Some u ->
  Int64.in_range (timeline w (reads w)) ->
  Int64.in_range (timeline w1 (reads w1)) ->
  timeline w (reads w) <= timeline w1 (reads w1) ->
  exists w2 d,
    handler promOpts Next c w = (Ok c1, w2) /\
    observed_once reqDuration_vec (registry w1) (registry w2)
      [Itoa (Status (Writer c1)); endpoint; Method r] d /\
    Float64.nonneg d.
Proof.
  intros Hc Hok Hve Hvm Hu Hs He Hle.
  pose proof (handler_recorded regexp_MatchString URL_String _ _ _ _ _ _ _ _ _ _
                Hc Hok Hve Hvm Hu) as Hrun.
  eexists _, (elapsed w w1). split; [exact Hrun|].
  cbn [registry set_registry set_reads].
  split; [apply recorded_duration|].
  apply nonneg_class_nonneg, Seconds_nonneg_class.
  by apply time_Sub_nonneg.
Qed.

(** X14. A handler wrapped by [PromHandler] that is the last handler of
    the chain behind the middleware (as the metrics endpoint is in
    [main]) is recorded like any other request: [PromHandler] hands the
    writer and the request of the context to [ServeHTTP], and the status
    label and the response size are those [ServeHTTP] left in the
    writer.  The labels are valid UTF-8 and no suppression is
    configured. *)
Theorem wrapped_handler_is_recorded (h : http_Handler)
    promOpts c w wr w1 po endpoint r u :
  h (Writer c) (Request c) (set_reads (S (reads w)) w) = (Ok wr, w1) ->
  Request c = Some r ->
  URL r = Some u ->
  opts w1 !! promOpts = Some po ->
  (exists fn, EndpointLabelMappingFn po = Some fn /\
              fn {| Request := Some r; Writer := wr |} = Ok endpoint) ->
  no_suppression po ->
  utf8_ValidString endpoint = true ->
  utf8_ValidString (Method r) = true ->
  let c1 := {| Request := Some r; Writer := wr |} in
  let lvs := [Itoa (Status wr); endpoint; Method r] in
  exists w2,
    handler promOpts (PromHandler h M_ret) c w = (Ok c1, w2) /\
    incremented_once reqCount_vec (registry w1) (registry w2) lvs /\
    observed_once respSizeBytes_vec (registry w1) (registry w2) lvs
      (Float64.of_int (if Size wr <? 0 then 0 else Size wr)).
Proof.
  intros Hh Hr Hu Hpo Hfn Hn Hve Hvm c1 lvs.
  assert (Hc : completes promOpts (PromHandler h M_ret) c w c1 w1 po endpoint r).
  { split; [|done|done|done].
    unfold PromHandler. erewrite M_bind_Ok by exact Hh.
    unfold M_ret, c1. by rewrite Hr. }
  destruct Hn as (Hs & He & Hm).
  assert (Hok : passes po (Itoa (Status (Writer c1))) endpoint (Method r) = true).
  { unfold passes. by rewrite Hs, He, Hm. }
  pose proof (handler_recorded regexp_MatchString URL_String _ _ _ _ _ _ _ _ _ _
                Hc Hok Hve Hvm Hu) as Hrun.
  eexists. split; [exact Hrun|].
  cbn [registry set_registry set_reads].
  split; [apply recorded_incremented|apply recorded_response_size].
Qed.

End Duration.

(* ===================================================================== *)
(** ** The further properties at sample inputs *)
(* ===================================================================== *)

Lemma checkLabel_false_iff_suppresses_witness :
  checkLabel Sample.MatchString Sample.no_40x "403" "40" = false /\
  checkLabel Sample.MatchString Sample.no_40x "200" "40" = true.
Proof.
  split.
  - apply (proj2 (proj1 (checkLabel_false_iff_suppresses Sample.MatchString
                           Sample.no_40x "403" "40"))).
    split; [discriminate|reflexivity].
  - reflexivity.
Defined.

Lemma records_unless_suppressed_witness :
  let po := set_EndpointLabelMappingFn (Some raw_path) Sample.no_40x in
  let w1 := Sample.downstream Sample.guarded in
  completes 1 (Sample.respond 403 23) Sample.c0 Sample.guarded Sample.c403 w1
    po "/index" Sample.get_index /\
  exists w2,
    handler Sample.MatchString Sample.URL_String 1 (Sample.respond 403 23)
      Sample.c0 Sample.guarded = (Ok Sample.c403, w2) /\
    (((suppresses Sample.MatchString (ExcludeRegexStatus po) "403" \/
       suppresses Sample.MatchString (ExcludeRegexEndpoint po) "/index" \/
       suppresses Sample.MatchString (ExcludeRegexMethod po) "GET") /\
      w2 = w1) \/
     ((~ suppresses Sample.MatchString (ExcludeRegexStatus po) "403" /\
       ~ suppresses Sample.MatchString (ExcludeRegexEndpoint po) "/index" /\
       ~ suppresses Sample.MatchString (ExcludeRegexMethod po) "GET") /\
      registry w2
      = recorded ["403"; "/index"; "GET"]%string (elapsed Sample.guarded w1)
          (Float64.of_int (Int64.wrap64 (request_bytes Sample.get_index)))
          (response_size Sample.c403) (registry w1) /\
      opts w2 = opts w1 /\
      reads w2 = S (reads w1))).
Proof.
  split; [exact (guarded_completes 403 23)|].
  exact (records_unless_suppressed Sample.MatchString Sample.URL_String
           1 (Sample.respond 403 23) Sample.c0 Sample.guarded Sample.c403
           (Sample.downstream Sample.guarded)
           (set_EndpointLabelMappingFn (Some raw_path) Sample.no_40x)
           "/index" Sample.get_index Sample.index_url
           (guarded_completes 403 23) eq_refl eq_refl eq_refl).
Defined.

Lemma downstream_panic_records_nothing_witness :
  handler Sample.MatchString Sample.URL_String 1 Fixture.panicking Sample.c0
    Sample.served
  = (Panic "handler failed"%string, Sample.downstream Sample.served).
Proof.
  exact (downstream_panic_records_nothing Sample.MatchString Sample.URL_String
           1 Fixture.panicking Sample.c0 Sample.served "handler failed"
           (Sample.downstream Sample.served) eq_refl).
Defined.

Lemma underivable_labels_record_nothing_witness :
  opts (Sample.downstream Sample.configured) !! 1%positive = Some Sample.no_40x /\
  EndpointLabelMappingFn Sample.no_40x = None /\
  exists msg,
    handler Sample.MatchString Sample.URL_String 1 (Sample.respond 200 17)
      Sample.c0 Sample.configured
    = (Panic msg, Sample.downstream Sample.configured).
Proof.
  split; [reflexivity|]. split; [reflexivity|].
  exact (underivable_labels_record_nothing Sample.MatchString Sample.URL_String
           1 (Sample.respond 200 17) Sample.c0 Sample.configured Sample.c200
           (Sample.downstream Sample.configured) Sample.no_40x
           eq_refl eq_refl (or_introl eq_refl)).
Defined.

Lemma fixed_completes :
  completes 1 (Sample.respond 200 17) Fixture.c_no_url Fixture.fixed
    Fixture.c_no_url_200 (Sample.downstream Fixture.fixed)
    Fixture.fixed_opts "/fixed" Sample.no_url.
Proof.
  split; [reflexivity|reflexivity| |reflexivity].
  by exists (fun _ => Ok "/fixed"%string).
Defined.

Lemma nil_URL_records_in_part_witness :
  let lvs := ["200"; "/fixed"; "GET"]%string in
  let w1 := Sample.downstream Fixture.fixed in
  completes 1 (Sample.respond 200 17) Fixture.c_no_url Fixture.fixed
    Fixture.c_no_url_200 w1 Fixture.fixed_opts "/fixed" Sample.no_url /\
  URL Sample.no_url = None /\
  exists w2,
    handler Sample.MatchString Sample.URL_String 1 (Sample.respond 200 17)
      Fixture.c_no_url Fixture.fixed = (Panic nil_dereference, w2) /\
    incremented_once reqCount_vec (registry w1) (registry w2) lvs /\
    observed_once reqDuration_vec (registry w1) (registry w2) lvs
      (elapsed Fixture.fixed w1) /\
    reqSizeBytes (registry w2) !! lvs
    = Some (samples reqSizeBytes_vec (registry w1) lvs) /\
    (forall k, k <> lvs ->
       reqSizeBytes (registry w2) !! k = reqSizeBytes (registry w1) !! k) /\
    respSizeBytes (registry w2) = respSizeBytes (registry w1) /\
    uptime (registry w2) = uptime (registry w1).
Proof.
  split; [exact fixed_completes|]. split; [reflexivity|].
  exact (nil_URL_records_in_part Sample.MatchString Sample.URL_String
           1 (Sample.respond 200 17) Fixture.c_no_url Fixture.fixed
           Fixture.c_no_url_200 (Sample.downstream Fixture.fixed)
           Fixture.fixed_opts "/fixed" Sample.no_url
           fixed_completes eq_refl eq_refl eq_refl eq_refl).
Defined.

Lemma events_grow : Forall downstream_grows Sample.events.
Proof.
  repeat (apply Forall_cons_2;
          [first [exact I | intros c w; apply registry_le_refl]|]).
  apply Forall_nil_2.
Defined.

Lemma registry_only_grows_witness :
  Forall downstream_grows Sample.events /\
  registry_le (registry Sample.served)
    (registry (run Sample.MatchString Sample.URL_String Sample.events
                 Sample.served)).
Proof.
  split; [exact events_grow|].
  exact (registry_only_grows Sample.MatchString Sample.URL_String
           Sample.events Sample.served events_grow).
Defined.


Lemma PromMiddleware_fills_only_the_mapping_witness :
  is_Some (opts Sample.configured !! 1%positive) /\
  exists l w',
    PromMiddleware Sample.MatchString Sample.URL_String (Some 1%positive)
      Sample.configured
    = (Ok (handler Sample.MatchString Sample.URL_String l), w') /\
    registry w' = registry Sample.configured /\
    timeline w' = timeline Sample.configured /\
    reads w' = reads Sample.configured /\
    (forall l' po,
       opts Sample.configured !! l' = Some po ->
       exists po',
         opts w' !! l' = Some po' /\
         same_patterns po po' /\
         (is_Some (EndpointLabelMappingFn po) \/ l' <> l -> po' = po)) /\
    (exists po',
       opts w' !! l = Some po' /\ is_Some (EndpointLabelMappingFn po')) /\
    l = 1%positive.
Proof.
  split; [by eexists|].
  exact (PromMiddleware_fills_only_the_mapping Sample.MatchString
           Sample.URL_String (Some 1%positive) Sample.configured
           (ex_intro _ Sample.no_40x eq_refl)).
Defined.

Lemma PromMiddleware_twice_witness :
  is_Some (opts Sample.configured !! 1%positive) /\
  exists h w',
    PromMiddleware Sample.MatchString Sample.URL_String (Some 1%positive)
      Sample.configured = (Ok h, w') /\
    PromMiddleware Sample.MatchString Sample.URL_String (Some 1%positive) w'
    = (Ok h, w').
Proof.
  split; [by eexists|].
  exact (PromMiddleware_twice Sample.MatchString Sample.URL_String 1
           Sample.configured (ex_intro _ Sample.no_40x eq_refl)).
Defined.

Lemma header_order_irrelevant_witness :
  let entries := reverse (map_to_list (Header Fixture.two_headers)) in
  entries ≡ₚ map_to_list (Header Fixture.two_headers) /\
  range_Header (size_before_header Fixture.two_headers) entries
  = range_Header (size_before_header Fixture.two_headers)
      (map_to_list (Header Fixture.two_headers)).
Proof.
  split; [apply reverse_Permutation|].
  exact (header_order_irrelevant Fixture.two_headers
           (reverse (map_to_list (Header Fixture.two_headers)))
           (reverse_Permutation _)).
Defined.

Lemma header_entry_adds_its_bytes_witness :
  URL Sample.get_index = Some Sample.index_url /\
  Header Sample.get_index !! "X-Request-Id"%string = None /\
  calcRequestSize Sample.URL_String
    (Some (set_Header (<["X-Request-Id"%string := ["7"%string]]>
                         (Header Sample.get_index)) Sample.get_index))
  = Ok (Float64.of_int
          (Int64.wrap64 (request_bytes Sample.get_index
                         + len "X-Request-Id" + values_bytes ["7"%string]))).
Proof.
  split; [reflexivity|]. split; [reflexivity|].
  exact (header_entry_adds_its_bytes Sample.URL_String Sample.get_index
           Sample.index_url "X-Request-Id" ["7"%string] eq_refl eq_refl).
Defined.

Lemma served_clock_in_range (n : nat) :
  (n <= 1)%nat -> Int64.in_range (timeline Sample.served n).
Proof.
  intros Hn. unfold Int64.in_range, Int64.min_int, Int64.max_int.
  cbn [timeline Sample.served set_opts Sample.boot]. lia.
Defined.

Lemma duration_never_negative_witness :
  let w1 := Sample.downstream Sample.served in
  completes 1 (Sample.respond 200 17) Sample.c0 Sample.served Sample.c200 w1
    default_opts "/index" Sample.get_index /\
  timeline Sample.served (reads Sample.served) <= timeline w1 (reads w1) /\
  exists w2 d,
    handler Sample.MatchString Sample.URL_String 1 (Sample.respond 200 17)
      Sample.c0 Sample.served = (Ok Sample.c200, w2) /\
    observed_once reqDuration_vec (registry w1) (registry w2)
      ["200"; "/index"; "GET"]%string d /\
    Float64.nonneg d.
Proof.
  split; [exact (served_completes 200 17)|].
  split; [by vm_compute|].
  exact (duration_never_negative Sample.MatchString Sample.URL_String
           1 (Sample.respond 200 17) Sample.c0 Sample.served Sample.c200
           (Sample.downstream Sample.served) default_opts "/index"
           Sample.get_index Sample.index_url
           (served_completes 200 17) eq_refl eq_refl eq_refl eq_refl
           (served_clock_in_range 0 ltac:(lia))
           (served_clock_in_range 1 ltac:(lia))
           ltac:(by vm_compute)).
Defined.

Lemma wrapped_handler_is_recorded_witness :
  let wr := {| Status := 200; Size := 512 |} in
  let w1 := Sample.downstream Sample.served in
  let lvs := ["200"; "/index"; "GET"]%string in
  no_suppression default_opts /\
  utf8_ValidString "/index" = true /\
  exists w2,
    handler Sample.MatchString Sample.URL_String 1
      (PromHandler Fixture.exposition M_ret) Sample.c0 Sample.served
    = (Ok {| Request := Some Sample.get_index; Writer := wr |}, w2) /\
    incremented_once reqCount_vec (registry w1) (registry w2) lvs /\
    observed_once respSizeBytes_vec (registry w1) (registry w2) lvs
      (Float64.of_int 512).
Proof.
  split; [done|]. split; [reflexivity|].
  exact (wrapped_handler_is_recorded Sample.MatchString Sample.URL_String
           Fixture.exposition 1 Sample.c0 Sample.served
           {| Status := 200; Size := 512 |} (Sample.downstream Sample.served)
           default_opts "/index" Sample.get_index Sample.index_url
           eq_refl eq_refl eq_refl eq_refl
           (ex_intro _ raw_path (conj eq_refl eq_refl))
           (conj eq_refl (conj eq_refl eq_refl)) eq_refl eq_refl).
Defined.

(** [utf8.ValidString] on sample byte strings: ASCII and well-formed two-
    and four-byte sequences are valid; a lone byte 255, the overlong
    encoding 192 128 and the surrogate 237 160 128 are not. *)
Example utf8_ValidString_samples :
  let bytes := fun l => fold_right (fun n s => String (Ascii.ascii_of_N n) s)
                          EmptyString l in
  map utf8_ValidString
    [bytes [71; 69; 84]%N; bytes [195; 169]%N; bytes [240; 159; 152; 128]%N;
     bytes [47; 255]%N; bytes [192; 128]%N; bytes [237; 160; 128]%N;
     bytes [195]%N]
  = [true; true; true; false; false; false; false].
Proof. reflexivity. Qed.
